(** * okta-idx-golang: the interaction / remediation client and the
      password-reset flow, embedded from [idx.go] and [reset_password.go].

    Go values are embedded as follows.
    - [string] and [[]byte] payloads are [string]; raw random bytes and
      digests are [list byte].
    - a pointer that the code compares with [nil] is an [option].
    - a function returning [(v, error)] is a computation in the monad [M]
      below: it ends in [Ok v], in [Err e], or in [Panic] (a nil pointer
      dereference); the mutable state reached so far is kept in all three
      cases, because the objects live on the heap.
    - the HTTP client is an oracle [Do] from the history of exchanges and the
      next request to its reply; every exchange is appended to the history,
      which is what a transport spy would record. A request that cannot be
      created ([http.NewRequestWithContext] returns an error) is not sent and
      leaves the history as it is. *)

From Stdlib Require Import String Ascii List Bool Arith NArith ZArith Lia.
From Stdlib Require Import Init.Byte.
Import ListNotations.
Local Open Scope list_scope.
Local Open Scope string_scope.

Set Implicit Arguments.

(* ===================================================================== *)
(** ** Characters that cannot be typed inside a literal *)

Definition dq : string := String (ascii_of_nat 34) EmptyString.
Definition nl : string := String (ascii_of_nat 10) EmptyString.
Definition tab : string := String (ascii_of_nat 9) EmptyString.

(** Concatenation of the pieces of a Go raw string literal. *)
Definition cat (l : list string) : string := fold_right String.append EmptyString l.

(** [contains s sub]: [sub] occurs in [s]. *)
Definition contains (s sub : string) : Prop :=
  exists pre post, s = pre ++ sub ++ post.

(* ===================================================================== *)
(** ** encoding/base64: [RawURLEncoding.EncodeToString] *)

Module Base64.

Definition encodeURL : string :=
  "ABCDEFGHIJKLMNOPQRSTUVWXYZabcdefghijklmnopqrstuvwxyz0123456789-_".

Definition encodeURL_chars : list ascii := list_ascii_of_string encodeURL.

(** The character for a 6-bit value. *)
Definition enc (v : N) : ascii :=
  nth (N.to_nat (N.land v 63)) encodeURL_chars "A"%char.

Definition sextet (v : N) (shift : N) : ascii := enc (N.shiftr v shift).

(** Three source bytes give four characters; a remainder of one byte gives
    two characters and a remainder of two bytes gives three (no padding). *)
Fixpoint EncodeToString (src : list byte) : string :=
  match src with
  | [] => EmptyString
  | [a] =>
      let v := N.shiftl (Byte.to_N a) 16 in
      String (sextet v 18) (String (sextet v 12) EmptyString)
  | [a; b] =>
      let v := N.lor (N.shiftl (Byte.to_N a) 16) (N.shiftl (Byte.to_N b) 8) in
      String (sextet v 18) (String (sextet v 12) (String (sextet v 6) EmptyString))
  | a :: b :: c :: rest =>
      let v := N.lor (N.lor (N.shiftl (Byte.to_N a) 16)
                            (N.shiftl (Byte.to_N b) 8)) (Byte.to_N c) in
      String (sextet v 18) (String (sextet v 12)
        (String (sextet v 6) (String (sextet v 0) (EncodeToString rest))))
  end.

(** [EncodedLen] of the raw (unpadded) encodings. *)
Definition EncodedLen (n : nat) : nat := (n * 8 + 5) / 6.

Definition url_safe (c : ascii) : bool :=
  let n := nat_of_ascii c in
  (Nat.leb 65 n && Nat.leb n 90) || (Nat.leb 97 n && Nat.leb n 122)
  || (Nat.leb 48 n && Nat.leb n 57) || Nat.eqb n 45 || Nat.eqb n 95.

Fixpoint all_chars (p : ascii -> bool) (s : string) : bool :=
  match s with
  | EmptyString => true
  | String c s' => p c && all_chars p s'
  end.

End Base64.

(* ===================================================================== *)
(** ** The remediation document *)

(** The declarations of the document types are not in the two files. Their
    fields are the ones the two files read ([FormValues], [Form], [Name],
    [Label], [Value], [CancelResponse], [SuccessResponse],
    [CurrentAuthenticatorEnrollment.Value.Recover], [Messages.Values]); the
    rest follows the spec's data model. *)

(** Modelled from the spec: a form field, which may wrap a nested form;
    [Form] is [None] for a nil pointer. *)
Inductive FormValue : Type :=
  MkFormValue (Name Label Value : string) (Form : option Form)
with Form : Type :=
  MkForm (FormValues : list FormValue).

Definition fvName (f : FormValue) : string := let (n, _, _, _) := f in n.
Definition fvLabel (f : FormValue) : string := let (_, l, _, _) := f in l.
Definition fvValue (f : FormValue) : string := let (_, _, v, _) := f in v.
Definition fvForm (f : FormValue) : option Form := let (_, _, _, o) := f in o.
Definition formValues (f : Form) : list FormValue := let (l) := f in l.

(** Modelled from the spec: a remediation option has a name, a submission
    target and an ordered sequence of form fields. *)
Record RemediationOption := {
  roName : string;
  roHref : string;
  roFormValues : list FormValue
}.

(** Modelled from the spec: the success marker (it carries the
    token-exchange endpoint) and the cancel marker. *)
Record SuccessOption := { soName : string; soHref : string }.
Record CancelOption := { coName : string; coHref : string }.

(** Modelled from the spec: a message of the provider, severity and text;
    [Messages] is a pointer to a struct with the list [Values]. *)
Record MessageValue := { mvClass : string; mvMessage : string }.
Record Message := { Values : list MessageValue }.

(** [CurrentAuthenticatorEnrollment.Value.Recover]. *)
Record Enrollment := { Recover : RemediationOption }.

(** Modelled from the spec: the parsed document. The options are kept in
    document order and looked up by name. *)
Record Response := {
  Remediation : list RemediationOption;
  CancelResponse : option CancelOption;
  SuccessResponse : option SuccessOption;
  CurrentAuthenticatorEnrollment : option Enrollment;
  Messages : option Message
}.

(** The token is an opaque bundle. *)
Definition Token := string.

Record InteractionHandle := { handle : string }.

(** [type Context struct]. *)
Record Context := {
  codeVerifier : string;
  interactionHandle : option InteractionHandle;
  state : string
}.

Definition CodeVerifier (ictx : Context) : string := codeVerifier ictx.
Definition GetInteractionHandle (ictx : Context) : option InteractionHandle :=
  interactionHandle ictx.
Definition State (ictx : Context) : string := state ictx.

(** [c.config.Okta.IDX]. *)
Record Client := {
  Issuer : string;
  ClientID : string;
  cfgClientSecret : string;
  Scopes : list string;
  RedirectURI : string
}.

Definition ClientSecret (c : Client) : string := cfgClientSecret c.

(* ===================================================================== *)
(** ** Steps of the password-reset flow *)

Inductive ResetPasswordStep :=
| ResetPasswordStepEmailVerification
| ResetPasswordStepEmailConfirmation
| ResetPasswordStepAnswerSecurityQuestion
| ResetPasswordStepNewPassword
| ResetPasswordStepCancel
| ResetPasswordStepSkip
| ResetPasswordStepSuccess.

(** The [iota + 1] numbering of the constants. *)
Definition step_code (s : ResetPasswordStep) : nat :=
  match s with
  | ResetPasswordStepEmailVerification => 1
  | ResetPasswordStepEmailConfirmation => 2
  | ResetPasswordStepAnswerSecurityQuestion => 3
  | ResetPasswordStepNewPassword => 4
  | ResetPasswordStepCancel => 5
  | ResetPasswordStepSkip => 6
  | ResetPasswordStepSuccess => 7
  end.

Definition step_eqb (a b : ResetPasswordStep) : bool :=
  Nat.eqb (step_code a) (step_code b).

(** [resetStepText] through [String()]. *)
Definition step_String (s : ResetPasswordStep) : string :=
  match s with
  | ResetPasswordStepEmailVerification => "EMAIL_VERIFICATION"
  | ResetPasswordStepEmailConfirmation => "EMAIL_CONFIRMATION"
  | ResetPasswordStepAnswerSecurityQuestion => "ANSWER SECURITY_QUESTION"
  | ResetPasswordStepNewPassword => "NEW_PASSWORD"
  | ResetPasswordStepCancel => "CANCEL"
  | ResetPasswordStepSkip => "SKIP"
  | ResetPasswordStepSuccess => "SUCCESS"
  end.

(** How [fmt] prints a slice of steps under [%s]: the elements' [String()]
    separated by one space, in brackets. *)
Fixpoint join_space (l : list string) : string :=
  match l with
  | [] => EmptyString
  | [x] => x
  | x :: rest => x ++ " " ++ join_space rest
  end.

Definition Sprint_steps (l : list ResetPasswordStep) : string :=
  "[" ++ join_space (map step_String l) ++ "]".

Record SecurityQuestion := { QuestionKey : string; Question : string }.

(* ===================================================================== *)
(** ** Errors *)

(** An [error] value: [fmt.Errorf] with the format and its one operand, or
    the decoded [ErrorResponse] of the provider, or an error of the
    standard library ([net/http], [crypto/rand], [encoding/json]). *)
Inductive error :=
| Errorf (format : string)
| ErrorfSteps (format : string) (steps : list ResetPasswordStep)
| ErrorfMessages (format : string) (vals : list MessageValue)
| ErrorfString (format : string) (arg : string)
| ErrorfWrap (format : string) (cause : error)
| ErrorResponse (msgs : list MessageValue)
| LibError (msg : string).

(* ===================================================================== *)
(** ** Computations: result, error or panic, over a mutable state *)

Inductive outcome (A : Type) :=
| Ok (a : A)
| Err (e : error)
| Panic.
Arguments Err {A} e.
Arguments Panic {A}.

Definition M (S A : Type) : Type := S -> outcome A * S.

Definition ret {S A} (a : A) : M S A := fun s => (Ok a, s).
Definition fail {S A} (e : error) : M S A := fun s => (Err e, s).
Definition panic {S A} : M S A := fun s => (Panic, s).

Definition bind {S A B} (m : M S A) (k : A -> M S B) : M S B :=
  fun s =>
    match m s with
    | (Ok a, s') => k a s'
    | (Err e, s') => (Err e, s')
    | (Panic, s') => (Panic, s')
    end.

Definition gets {S A} (f : S -> A) : M S A := fun s => (Ok (f s), s).
Definition modify {S} (f : S -> S) : M S unit := fun s => (Ok tt, f s).

(** [defer cleanup] registered before [body]: [cleanup] runs when [body] ends,
    however it ends. *)
Definition with_defer {S A} (cleanup : S -> S) (body : M S A) : M S A :=
  fun s => let (o, s') := body s in (o, cleanup s').

(** [if err != nil { return nil, fmt.Errorf(format, err) }]. *)
Definition wrap_err {S A} (format : string) (m : M S A) : M S A :=
  fun s =>
    match m s with
    | (Err e, s') => (Err (ErrorfWrap format e), s')
    | r => r
    end.

Declare Scope go_scope.
Delimit Scope go_scope with go.
Notation "x <- m ;; k" := (bind m (fun x => k))
  (at level 61, m at next level, right associativity) : go_scope.
Notation "m ;;; k" := (bind m (fun _ => k))
  (at level 61, right associativity) : go_scope.

Local Open Scope go_scope.

(** A pure [(v, error)] result used as a step of a computation. *)
Definition of_result {S A} (r : error + A) : M S A :=
  match r with
  | inl e => fail e
  | inr a => ret a
  end.

(* ===================================================================== *)
(** ** The transport and the rest of the outside world *)

(** The form of the interaction request ([url.Values]). *)
Record InteractForm := {
  client_id : string;
  scope : string;
  code_challenge : string;
  code_challenge_method : string;
  redirect_uri : string;
  form_state : string
}.

(** One HTTP exchange handed to [httpClient.Do]. *)
Inductive Call :=
| CallInteract (endpoint : string) (data : InteractForm)
| CallIntrospect (endpoint : string) (body : option InteractionHandle)
| CallProceed (ro : RemediationOption) (payload : string)
| CallExchangeCode (so : SuccessOption) (payload : string)
| CallCancel (co : CancelOption).

(** What [httpClient.Do] followed by [unmarshalResponse] ends in:
    [Do] failed; the body could not be read or decoded (the error is the one
    [unmarshalResponse] returns); a status other than 200 with the decoded
    [ErrorResponse]; or status 200 with the decoded value. *)
Inductive Reply :=
| DoFailed (e : error)
| BodyFailed (e : error)
| StatusNotOK (msgs : list MessageValue)
| GotHandle (h : string)
| GotResponse (r : Response)
| GotToken (t : Token).

Record IdentifyRequest := { Identifier : string; RememberMe : bool }.

Record AuthenticationOptions := { Username : string; Password : string }.

Record URL := { Scheme : string; Host : string }.

(** Everything the package does not define itself: the HTTP client as an
    oracle over the history of exchanges, the operating system's random
    stream, functions of Go's standard library, and the package-level
    [var idx *Client] (the client constructed last). [IsIdentityFirst] is a
    method of [RemediationOption] defined outside these two files.
    [http_NewRequest] is the error of [http.NewRequestWithContext] for the
    request about to be made, with the context the caller passed (a nil
    context, a URL that does not parse), [None] when the request is created;
    [json_Marshal_handle] is the error of [json.Marshal] on the interaction
    handle, [None] when it is encoded. *)
Record Env := {
  Do : list Call -> Call -> Reply;
  http_NewRequest : list Call -> Call -> option error;
  json_Marshal_handle : option InteractionHandle -> option error;
  entropy : nat -> byte;
  crand_err : nat -> option error;
  sha256_Sum : list byte -> list byte;
  url_Parse : string -> error + URL;
  strings_TrimSpace : string -> string;
  json_Marshal : IdentifyRequest -> string;
  IsIdentityFirst : RemediationOption -> error + bool;
  idx : Client
}.

(** The observable world: the exchanges made so far and how many random
    bytes were consumed. *)
Record World := { calls : list Call; rand_pos : nat }.

Definition add_call (c : Call) (w : World) : World :=
  {| calls := (calls w ++ [c])%list; rand_pos := rand_pos w |}.

Definition unmarshal_mismatch : error :=
  ErrorfWrap "failed to unmarshal response body: %w" (LibError "json").

(* ===================================================================== *)
(** ** Navigation in the document *)

(** Modelled from the spec: [Response.LoginSuccess] is not in the two files;
    it is the terminal-state predicate "a success marker is present". *)
Definition LoginSuccess (resp : Response) : bool :=
  match SuccessResponse resp with Some _ => true | None => false end.

(** Modelled from the spec: [Response.remediationOption] is not in the two
    files; it returns the option with that name or fails with a "not found"
    condition. *)
Definition remediationOption (resp : Response) (optionName : string)
  : error + RemediationOption :=
  match find (fun ro => String.eqb (roName ro) optionName) (Remediation resp) with
  | Some ro => inr ro
  | None =>
      inl (ErrorfString
             "could not locate a remediation option with the name '%s'"
             optionName)
  end.

(** Modelled from the spec: [Response.getRemediationOption], the lookup
    [Authenticate] uses to fetch the "identify" option; not in the two
    files. *)
Definition getRemediationOption (resp : Response) (optionName : string)
  : error + RemediationOption :=
  remediationOption resp optionName.

(** The first field [f] of a non-empty nested form, in the order of the two
    [for ... range] loops, for which [p f] holds. *)
Fixpoint find_nested (p : FormValue -> bool) (fvs : list FormValue)
  : option FormValue :=
  match fvs with
  | [] => None
  | fv :: rest =>
      match fvForm fv with
      | Some (MkForm (x :: xs)) =>
          match find p (x :: xs) with
          | Some f => Some f
          | None => find_nested p rest
          end
      | _ => find_nested p rest
      end
  end.

(** Modelled from the spec: [Response.authenticatorOption] is not in the two
    files; it locates the named option, scans its nested
    authenticator-selection forms for a field whose label matches, and
    returns the option with that authenticator's machine identifier; it
    fails if the option or the authenticator is absent. *)
Definition authenticatorOption (resp : Response) (optionName label : string)
  : error + (RemediationOption * string) :=
  match remediationOption resp optionName with
  | inl e => inl e
  | inr ro =>
      match find_nested (fun f => String.eqb (fvLabel f) label) (roFormValues ro) with
      | Some f => inr (ro, fvValue f)
      | None =>
          inl (ErrorfString
                 "could not locate authenticator with the '%s' label" label)
      end
  end.

(** [type AuthenticationResponse struct]. *)
Record AuthenticationResponse := {
  ar_idxContext : option Context;
  ar_token : option Token;
  authenticationStatus : string
}.

Definition AuthStatusSuccess : string := "SUCCESS".
Definition AuthStatusPasswordExpired : string := "PASSWORD_EXPIRED".
Definition AuthStatusUnhandled : string := "UNHANDLED_RESPONSE".

(** [type ResetPasswordResponse struct]. *)
Record ResetPasswordResponse := {
  idxContext : option Context;
  token : option Token;
  availableSteps : list ResetPasswordStep;
  sq : option SecurityQuestion
}.

Definition AvailableSteps (r : ResetPasswordResponse) : list ResetPasswordStep :=
  availableSteps r.

Definition GetSecurityQuestion (r : ResetPasswordResponse) : option SecurityQuestion :=
  sq r.

(** [HasStep]: the loop over [r.availableSteps]. *)
Fixpoint has_step (l : list ResetPasswordStep) (s : ResetPasswordStep) : bool :=
  match l with
  | [] => false
  | x :: rest => if step_eqb x s then true else has_step rest s
  end.

Definition HasStep (r : ResetPasswordResponse) (s : ResetPasswordStep) : bool :=
  has_step (availableSteps r) s.

Definition IsAuthenticated (r : ResetPasswordResponse) : bool :=
  HasStep r ResetPasswordStepSuccess.

(** The state of a method of [*ResetPasswordResponse]: the object behind the
    receiver and the world. *)
Record RState := { obj : ResetPasswordResponse; world : World }.

Definition set_token (t : option Token) (s : RState) : RState :=
  {| obj := {| idxContext := idxContext (obj s); token := t;
               availableSteps := availableSteps (obj s); sq := sq (obj s) |};
     world := world s |}.

Definition set_availableSteps (l : list ResetPasswordStep) (s : RState) : RState :=
  {| obj := {| idxContext := idxContext (obj s); token := token (obj s);
               availableSteps := l; sq := sq (obj s) |};
     world := world s |}.

Definition set_sq (q : option SecurityQuestion) (s : RState) : RState :=
  {| obj := {| idxContext := idxContext (obj s); token := token (obj s);
               availableSteps := availableSteps (obj s); sq := q |};
     world := world s |}.

(** A computation on the world run from a method of the response object. *)
Definition lift {A} (m : M World A) : M RState A :=
  fun s => let (o, w) := m (world s) in (o, {| obj := obj s; world := w |}).

(* ===================================================================== *)
(** ** The JSON bodies, as the raw string literals build them *)

Fixpoint tabs (n : nat) : string :=
  match n with
  | O => EmptyString
  | S n' => tab ++ tabs n'
  end.

(** A quoted key or value. *)
Definition q (s : string) : string := dq ++ s ++ dq.

(** [exchangeForm] of [setupNextSteps] and of [handleRemediation]. *)
Definition exchangeForm (secret verifier : string) : string :=
  cat [ "{"; nl;
        tabs 3; q "client_secret"; ": "; dq; secret; dq; ","; nl;
        tabs 3; q "code_verifier"; ": "; dq; verifier; dq; nl;
        tabs 2; "}" ].

(** [authenticator] of [VerifyEmail]. *)
Definition authenticator_body (authID : string) : string :=
  cat [ "{"; nl;
        tabs 4; q "authenticator"; ": {"; nl;
        tabs 5; q "id"; ": "; dq; authID; dq; nl;
        tabs 4; "}"; nl;
        tabs 3; "}" ].

(** [credentials] of [AnswerSecurityQuestion]. *)
Definition answer_body (questionKey answer : string) : string :=
  cat [ "{"; nl;
        tabs 4; q "credentials"; ": {"; nl;
        tabs 5; q "questionKey"; ": "; dq; questionKey; dq; ","; nl;
        tabs 5; q "answer"; ": "; dq; answer; dq; nl;
        tabs 4; "}"; nl;
        tabs 3; "}" ].

(** [credentials] of [confirmWithCode]. *)
Definition code_body (code : string) : string :=
  cat [ "{"; nl;
        tabs 4; q "credentials"; ": {"; nl;
        tabs 5; q "passcode"; ": "; dq; code; dq; nl;
        tabs 4; "}"; nl;
        tabs 3; "}" ].

(** [credentials] of [SetNewPassword] and of [handleIdentityFirst]. *)
Definition passcode_body (passcode : string) : string :=
  cat [ "{"; nl;
        tabs 2; q "credentials"; ": {"; nl;
        tabs 3; q "passcode"; ": "; dq; passcode; dq; nl;
        tabs 2; "}"; nl;
        tabs 1; "}" ].

(** [identify] of [handleIdentityFirst]. *)
Definition identifier_body (username : string) : string :=
  cat [ "{"; nl;
        tabs 2; q "identifier"; ": "; dq; username; dq; nl;
        tabs 1; "}" ].

(** [identify] of [handleSingleStepIdentity]. *)
Definition identify_credentials_body (username password : string) : string :=
  cat [ "{"; nl;
        tabs 2; q "identifier"; ": "; dq; username; dq; ","; nl;
        tabs 2; q "credentials"; ": {"; nl;
        tabs 3; q "passcode"; ": "; dq; password; dq; nl;
        tabs 2; "}"; nl;
        tabs 1; "}" ].

Definition step_not_available : string :=
  "this step is not available, please try one of %s".

Definition enrollment_missing : string :=
  "falied to init password recovery: 'currentAuthenticatorEnrollment' field is missing from the response".

Definition enrollment_missing_v : string :=
  "falied to init password recovery: 'currentAuthenticatorEnrollment' field is missing from the response: %v".

Definition no_more_steps : string :=
  "there are no more steps available: %v".

(* ===================================================================== *)
(** ** The client ([idx.go]) *)

Section Client.

Variable env : Env.

(** [crand.Read(b)] with [len(b) = n]: fills all of [b] or fails. *)
Definition crand_Read (n : nat) : M World (list byte) :=
  fun w =>
    match crand_err env (rand_pos w) with
    | Some e => (Err e, w)
    | None =>
        (Ok (map (entropy env) (seq (rand_pos w) n)),
         {| calls := calls w; rand_pos := rand_pos w + n |})
    end.

(** One exchange through [httpClient.Do]; it is recorded. *)
Definition exchange (c : Call) : M World Reply :=
  fun w => (Ok (Do env (calls w) c), add_call c w).

(** [resp, err := c.httpClient.Do(req)] with its error check, then
    [unmarshalResponse] into the expected type. *)
Definition decode {A} (pick : Reply -> option A) (reply : Reply) : M World A :=
  match reply with
  | DoFailed e => fail (ErrorfWrap "http call has failed: %w" e)
  | BodyFailed e => fail e
  | StatusNotOK msgs => fail (ErrorResponse msgs)
  | other =>
      match pick other with
      | Some a => ret a
      | None => fail unmarshal_mismatch
      end
  end.

Definition pick_handle (r : Reply) : option string :=
  match r with GotHandle h => Some h | _ => None end.
Definition pick_response (r : Reply) : option Response :=
  match r with GotResponse d => Some d | _ => None end.
Definition pick_token (r : Reply) : option Token :=
  match r with GotToken t => Some t | _ => None end.

Definition createCodeVerifier : M World string :=
  codeVerifier <- wrap_err "error creating code_verifier: %w" (crand_Read 86) ;;
  ret (Base64.EncodeToString codeVerifier).

Definition createState : M World string :=
  localState <- wrap_err "error creating state: %w" (crand_Read 16) ;;
  ret (Base64.EncodeToString localState).

(** The PKCE challenge of a verifier: [h.Write] then [h.Sum(nil)], encoded. *)
Definition codeChallengeOf (verifier : string) : string :=
  Base64.EncodeToString (sha256_Sum env (list_byte_of_string verifier)).

(** [req, err := http.NewRequestWithContext(...)] with its error check:
    nothing is sent when the request cannot be created. *)
Definition new_request (format : string) (c : Call) : M World unit :=
  fun w =>
    match http_NewRequest env (calls w) c with
    | Some e => (Err (ErrorfWrap format e), w)
    | None => (Ok tt, w)
    end.

(** [body, err := json.Marshal(ictx.InteractionHandle())] with its error
    check. *)
Definition marshal_handle (h : option InteractionHandle) : M World unit :=
  match json_Marshal_handle env h with
  | Some e => fail (ErrorfWrap "failed to marshal interaction handle: %w" e)
  | None => ret tt
  end.

(** [h.Write] of a [hash.Hash] never returns an error, so the check after it
    has no outcome of its own. *)
Definition Interact (c : Client) : M World Context :=
  codeVerifier <- createCodeVerifier ;;
  state <- createState ;;
  let codeChallenge := codeChallengeOf codeVerifier in
  let data :=
    {| client_id := ClientID c;
       scope := join_space (Scopes c);
       code_challenge := codeChallenge;
       code_challenge_method := "S256";
       redirect_uri := RedirectURI c;
       form_state := state |} in
  let endpoint := Issuer c ++ "/v1/interact" in
  new_request "failed to create interact http request: %w"
              (CallInteract endpoint data) ;;;
  reply <- exchange (CallInteract endpoint data) ;;
  interactionHandle <- decode pick_handle reply ;;
  ret {| codeVerifier := codeVerifier;
         interactionHandle := Some {| handle := interactionHandle |};
         state := state |}.

Definition Introspect (c : Client) (idxContext : option Context) : M World Response :=
  domain <- wrap_err "could not parse issuer: %w" (of_result (url_Parse env (Issuer c))) ;;
  ictx <- match idxContext with
          | None =>
              wrap_err "could not retrieve an interaction handle for you: %w"
                       (Interact c)
          | Some ictx => ret ictx
          end ;;
  let body := GetInteractionHandle ictx in
  marshal_handle body ;;;
  let endpoint := Scheme domain ++ "://" ++ Host domain ++ "/idp/idx/introspect" in
  new_request "failed to create introspect http request: %w"
              (CallIntrospect endpoint body) ;;;
  reply <- exchange (CallIntrospect endpoint body) ;;
  decode pick_response reply.

(** Modelled from the spec: [RemediationOption.Proceed] is not in the two
    files; it submits the payload as the JSON body to the option's
    submission target, and the returned document is the result. *)
Definition Proceed (ro : RemediationOption) (payload : string) : M World Response :=
  reply <- exchange (CallProceed ro payload) ;;
  decode pick_response reply.

(** Modelled from the spec: [SuccessOption.ExchangeCode] is not in the two
    files; it is the token-exchange call, returning the opaque token. *)
Definition ExchangeCode (so : SuccessOption) (payload : string) : M World Token :=
  reply <- exchange (CallExchangeCode so payload) ;;
  decode pick_token reply.

(** Modelled from the spec: [Response.Cancel] is not in the two files; it
    invokes the document's cancel transition. *)
Definition Cancel_document (resp : Response) : M World Response :=
  match CancelResponse resp with
  | None => fail (Errorf "valid cancel is missing from idx response")
  | Some co =>
      reply <- exchange (CallCancel co) ;;
      decode pick_response reply
  end.

Definition handleRemediation (c : Client) (idxContext : option Context)
           (response : Response) : M World (option AuthenticationResponse) :=
  let authenticationResponse :=
    {| ar_idxContext := idxContext; ar_token := None;
       authenticationStatus := EmptyString |} in
  if LoginSuccess response then
    match idxContext, SuccessResponse response with
    | Some ictx, Some so =>
        let form := exchangeForm (ClientSecret c) (CodeVerifier ictx) in
        tokens <- ExchangeCode so form ;;
        ret (Some {| ar_idxContext := idxContext;
                     ar_token := Some tokens;
                     authenticationStatus := AuthStatusSuccess |})
    | _, _ => panic
    end
  else ret (Some authenticationResponse).

Definition handleIdentityFirst (c : Client) (options : AuthenticationOptions)
           (remediationOption : RemediationOption) : M World Response :=
  let identify := identifier_body (Username options) in
  response <- Proceed remediationOption identify ;;
  remediationOption' <- of_result (getRemediationOption response "challenge-authenticator") ;;
  let credentials := passcode_body (Password options) in
  Proceed remediationOption' credentials.

Definition handleSingleStepIdentity (c : Client) (options : AuthenticationOptions)
           (remediationOption : RemediationOption) : M World Response :=
  Proceed remediationOption
          (identify_credentials_body (Username options) (Password options)).

(** [(nil, err)] is [Err], [(p, nil)] is [Ok (Some p)] and [(nil, nil)] is
    [Ok None]. *)
Definition Authenticate (c : Client) (options : AuthenticationOptions)
  : M World (option AuthenticationResponse) :=
  idxContext <- Interact c ;;
  response <- Introspect c (Some idxContext) ;;
  remediationOption <- of_result (getRemediationOption response "identify") ;;
  identityFirst <- of_result (IsIdentityFirst env remediationOption) ;;
  if (identityFirst : bool) then
    response <- handleIdentityFirst c options remediationOption ;;
    handleRemediation c (Some idxContext) response
  else ret None.

Definition ChangePassword (c : Client) : M World (option AuthenticationResponse) :=
  ret None.

(* =================================================================== *)
(** ** The password-reset flow ([reset_password.go]) *)

(** The question the two loops of [setupNextSteps] find under
    "challenge-authenticator": the first nested field named
    "questionKey". *)
Definition find_question (ro : RemediationOption) : option SecurityQuestion :=
  match find_nested (fun f => String.eqb (fvName f) "questionKey") (roFormValues ro) with
  | Some f => Some {| QuestionKey := fvValue f; Question := fvLabel f |}
  | None => None
  end.

(** Whether the two loops under "reset-authenticator" reach a nested field
    labelled "New password". *)
Definition has_new_password (ro : RemediationOption) : bool :=
  match find_nested (fun f => String.eqb (fvLabel f) "New password") (roFormValues ro) with
  | Some _ => true
  | None => false
  end.

Definition is_ok {A} (r : error + A) : bool :=
  match r with inr _ => true | inl _ => false end.

(** The local [steps] after the probes for cancel, the email
    authenticator and "skip". *)
Definition steps_before_question (resp : Response) : list ResetPasswordStep :=
  let steps := [] in
  let steps :=
    match CancelResponse resp with
    | Some _ => (steps ++ [ResetPasswordStepCancel])%list
    | None => steps
    end in
  let steps :=
    if is_ok (authenticatorOption resp "select-authenticator-authenticate" "Email")
    then (steps ++ [ResetPasswordStepEmailVerification])%list else steps in
  let steps :=
    if is_ok (remediationOption resp "skip")
    then (steps ++ [ResetPasswordStepSkip])%list else steps in
  steps.

(** The probe for "reset-authenticator", appended last. *)
Definition add_new_password (resp : Response) (steps : list ResetPasswordStep)
  : list ResetPasswordStep :=
  match remediationOption resp "reset-authenticator" with
  | inr ro =>
      if has_new_password ro
      then (steps ++ [ResetPasswordStepNewPassword])%list else steps
  | inl _ => steps
  end.

Definition setupNextSteps (resp : Response) : M RState unit :=
  if LoginSuccess resp then
    r <- gets obj ;;
    match idxContext r, SuccessResponse resp with
    | Some ictx, Some so =>
        let form := exchangeForm (ClientSecret (idx env)) (CodeVerifier ictx) in
        tokens <- lift (ExchangeCode so form) ;;
        modify (set_token (Some tokens)) ;;;
        modify (set_availableSteps [ResetPasswordStepSuccess]) ;;;
        ret tt
    | _, _ => panic
    end
  else
    let steps := steps_before_question resp in
    steps <- match remediationOption resp "challenge-authenticator" with
             | inr ro =>
                 match find_question ro with
                 | Some question =>
                     modify (set_sq (Some question)) ;;;
                     ret (steps ++ [ResetPasswordStepAnswerSecurityQuestion])%list
                 | None => ret steps
                 end
             | inl _ => ret steps
             end ;;
    let steps := add_new_password resp steps in
    match steps with
    | [] =>
        match Messages resp with
        | Some m => fail (ErrorfMessages no_more_steps (Values m))
        | None => panic
        end
    | _ :: _ => modify (set_availableSteps steps) ;;; ret tt
    end.

(** The guard every transition starts with. *)
Definition require_step (s : ResetPasswordStep) : M RState unit :=
  r <- gets obj ;;
  if negb (HasStep r s)
  then fail (ErrorfSteps step_not_available (AvailableSteps r))
  else ret tt.

(** [resp.CurrentAuthenticatorEnrollment == nil] and its two messages. *)
Definition require_enrollment {S} (resp : Response) : M S Enrollment :=
  match CurrentAuthenticatorEnrollment resp with
  | None =>
      match Messages resp with
      | Some m => fail (ErrorfMessages enrollment_missing_v (Values m))
      | None => fail (Errorf enrollment_missing)
      end
  | Some en => ret en
  end.

(** A method run on a freshly allocated object; the object is the result. *)
Definition on_new_object {A} (r : ResetPasswordResponse) (m : M RState A)
  : M World ResetPasswordResponse :=
  fun w =>
    match m {| obj := r; world := w |} with
    | (Ok _, s) => (Ok (obj s), world s)
    | (Err e, s) => (Err e, world s)
    | (Panic, s) => (Panic, world s)
    end.

Definition InitPasswordReset (c : Client) (ir : IdentifyRequest)
  : M World ResetPasswordResponse :=
  idxContext <- Interact c ;;
  resp <- Introspect c (Some idxContext) ;;
  ro <- of_result (remediationOption resp "identify") ;;
  let b := json_Marshal env ir in
  resp <- Proceed ro b ;;
  en <- require_enrollment resp ;;
  resp <- Proceed (Recover en) EmptyString ;;
  let rpr := {| idxContext := Some idxContext; token := None;
                availableSteps := []; sq := None |} in
  on_new_object rpr (setupNextSteps resp).

Definition VerifyEmail : M RState unit :=
  require_step ResetPasswordStepEmailVerification ;;;
  r <- gets obj ;;
  resp <- lift (Introspect (idx env) (idxContext r)) ;;
  en <- require_enrollment resp ;;
  resp <- lift (Proceed (Recover en) EmptyString) ;;
  found <- of_result (authenticatorOption resp "select-authenticator-authenticate" "Email") ;;
  let (ro, authID) := (found : RemediationOption * string) in
  resp <- lift (Proceed ro (authenticator_body authID)) ;;
  setupNextSteps resp ;;;
  r <- gets obj ;;
  modify (set_availableSteps
            (availableSteps r ++ [ResetPasswordStepEmailConfirmation])%list) ;;;
  ret tt.

Definition confirmWithCode (code : string) : M RState unit :=
  r <- gets obj ;;
  resp <- lift (Introspect (idx env) (idxContext r)) ;;
  ro <- of_result (remediationOption resp "challenge-authenticator") ;;
  let credentials := code_body (strings_TrimSpace env code) in
  resp <- lift (Proceed ro credentials) ;;
  setupNextSteps resp.

Definition ConfirmEmail (code : string) : M RState unit :=
  require_step ResetPasswordStepEmailConfirmation ;;;
  confirmWithCode code.

Definition AnswerSecurityQuestion (answer : string) : M RState unit :=
  require_step ResetPasswordStepAnswerSecurityQuestion ;;;
  r <- gets obj ;;
  resp <- lift (Introspect (idx env) (idxContext r)) ;;
  ro <- of_result (remediationOption resp "challenge-authenticator") ;;
  r <- gets obj ;;
  match sq r with
  | None => panic
  | Some question =>
      let credentials := answer_body (QuestionKey question) answer in
      resp <- lift (Proceed ro credentials) ;;
      with_defer (set_sq None) (setupNextSteps resp)
  end.

Definition SetNewPassword (password : string) : M RState unit :=
  require_step ResetPasswordStepNewPassword ;;;
  r <- gets obj ;;
  resp <- lift (Introspect (idx env) (idxContext r)) ;;
  ro <- of_result (remediationOption resp "reset-authenticator") ;;
  let credentials := passcode_body (strings_TrimSpace env password) in
  resp <- lift (Proceed ro credentials) ;;
  setupNextSteps resp.

Definition Cancel : M RState unit :=
  require_step ResetPasswordStepCancel ;;;
  r <- gets obj ;;
  resp <- lift (Introspect (idx env) (idxContext r)) ;;
  resp <- lift (Cancel_document resp) ;;
  setupNextSteps resp.

End Client.

(* ===================================================================== *)
(** ** What the probes of [setupNextSteps] compute from a document *)

(** The question cached by the "challenge-authenticator" probe, if any. *)
Definition question_of (resp : Response) : option SecurityQuestion :=
  match remediationOption resp "challenge-authenticator" with
  | inr ro => find_question ro
  | inl _ => None
  end.

(** The local [steps] when the last probe is done. *)
Definition next_steps (resp : Response) : list ResetPasswordStep :=
  add_new_password resp
    (match question_of resp with
     | Some _ =>
         (steps_before_question resp ++ [ResetPasswordStepAnswerSecurityQuestion])%list
     | None => steps_before_question resp
     end).

(** The assignment to [r.sq] made by the probes. *)
Definition cache_question (resp : Response) (s : RState) : RState :=
  match question_of resp with
  | Some question => set_sq (Some question) s
  | None => s
  end.

(** The successful course of [VerifyEmail] from the state [st]: the step is
    available, introspection returns a document with an enrollment, its
    recovery option answers with a document that offers the "Email"
    authenticator, selecting it is answered by the document [last], and the
    recomputation on [last] returns normally, leaving the state [s']. *)
Definition VerifyEmail_course (env : Env) (st : RState) (last : Response)
           (s' : RState) : Prop :=
  HasStep (obj st) ResetPasswordStepEmailVerification = true
  /\ exists resp0 w1 en resp1 w2 ro authID w3,
       Introspect env (idx env) (idxContext (obj st)) (world st) = (Ok resp0, w1)
       /\ CurrentAuthenticatorEnrollment resp0 = Some en
       /\ Proceed env (Recover en) EmptyString w1 = (Ok resp1, w2)
       /\ authenticatorOption resp1 "select-authenticator-authenticate" "Email"
          = inr (ro, authID)
       /\ Proceed env ro (authenticator_body authID) w2 = (Ok last, w3)
       /\ setupNextSteps env last {| obj := obj st; world := w3 |} = (Ok tt, s').

(* ===================================================================== *)
(** ** Scenarios: a scripted transport and concrete documents *)

Module Scenario.

(** A transport double that answers the [i]-th exchange with the [i]-th
    reply of a script and fails once the script is over. *)
Definition scripted (replies : list Reply) : list Call -> Call -> Reply :=
  fun history _ => nth (length history) replies (DoFailed (LibError "EOF")).

Definition client : Client :=
  {| Issuer := "https://example.okta.com/oauth2/default";
     ClientID := "client-id";
     cfgClientSecret := "s3cret";
     Scopes := ["openid"; "profile"];
     RedirectURI := "https://app.example.com/callback" |}.

Definition byte_at (n : nat) : byte :=
  match Byte.of_N (N.of_nat (n mod 256)) with
  | Some b => b
  | None => x00
  end.

(** The environment of a scenario; the digest and the other library
    functions are doubles, since no property below depends on what they
    compute. *)
Definition env_of (replies : list Reply) (identityFirst : bool) : Env :=
  {| Do := scripted replies;
     http_NewRequest := fun _ _ => None;
     json_Marshal_handle := fun _ => None;
     entropy := byte_at;
     crand_err := fun _ => None;
     sha256_Sum := fun bs => firstn 32 (bs ++ repeat x00 32)%list;
     url_Parse := fun _ => inr {| Scheme := "https"; Host := "example.okta.com" |};
     strings_TrimSpace := fun s => s;
     json_Marshal := fun ir => Identifier ir;
     IsIdentityFirst := fun _ => inr identityFirst;
     idx := client |}.

Definition world0 : World := {| calls := []; rand_pos := 0 |}.

Definition session : Context :=
  {| codeVerifier := "verifier-0"; interactionHandle := Some {| handle := "h0" |};
     state := "state-0" |}.

Definition empty_doc : Response :=
  {| Remediation := []; CancelResponse := None; SuccessResponse := None;
     CurrentAuthenticatorEnrollment := None; Messages := None |}.

Definition with_options (l : list RemediationOption) : Response :=
  {| Remediation := l; CancelResponse := None; SuccessResponse := None;
     CurrentAuthenticatorEnrollment := None; Messages := None |}.

Definition identify_option : RemediationOption :=
  {| roName := "identify"; roHref := "/idp/idx/identify";
     roFormValues := [MkFormValue "identifier" "Username" EmptyString None] |}.

Definition recover_option : RemediationOption :=
  {| roName := "recover"; roHref := "/idp/idx/recover"; roFormValues := [] |}.

Definition email_option : RemediationOption :=
  {| roName := "select-authenticator-authenticate";
     roHref := "/idp/idx/challenge";
     roFormValues :=
       [MkFormValue "authenticator" EmptyString EmptyString
          (Some (MkForm [MkFormValue "id" "Email" "aut-email-1" None]))] |}.

Definition question_option : RemediationOption :=
  {| roName := "challenge-authenticator";
     roHref := "/idp/idx/challenge/answer";
     roFormValues :=
       [MkFormValue "credentials" EmptyString EmptyString
          (Some (MkForm [MkFormValue "questionKey" "What is your pet's name?" "pet_name" None;
                         MkFormValue "answer" "Answer" EmptyString None]))] |}.

Definition passcode_option : RemediationOption :=
  {| roName := "challenge-authenticator";
     roHref := "/idp/idx/challenge/answer";
     roFormValues :=
       [MkFormValue "credentials" EmptyString EmptyString
          (Some (MkForm [MkFormValue "passcode" "Password" EmptyString None]))] |}.

Definition identify_doc : Response := with_options [identify_option].
Definition email_doc : Response := with_options [email_option].
Definition question_doc : Response := with_options [question_option].
Definition passcode_doc : Response := with_options [passcode_option].

Definition cancel_option : CancelOption :=
  {| coName := "cancel"; coHref := "/idp/idx/cancel" |}.

(** The document after the email authenticator was selected: a passcode
    challenge that can be cancelled. *)
Definition email_challenge_doc : Response :=
  {| Remediation := [passcode_option]; CancelResponse := Some cancel_option;
     SuccessResponse := None; CurrentAuthenticatorEnrollment := None;
     Messages := None |}.

Definition enrollment_doc : Response :=
  {| Remediation := []; CancelResponse := None; SuccessResponse := None;
     CurrentAuthenticatorEnrollment := Some {| Recover := recover_option |};
     Messages := None |}.

Definition success_option : SuccessOption :=
  {| soName := "issue"; soHref := "/oauth2/default/v1/token" |}.

Definition success_doc : Response :=
  {| Remediation := []; CancelResponse := None;
     SuccessResponse := Some success_option;
     CurrentAuthenticatorEnrollment := None; Messages := None |}.

Definition reset_option : RemediationOption :=
  {| roName := "reset-authenticator";
     roHref := "/idp/idx/challenge/answer";
     roFormValues :=
       [MkFormValue "credentials" EmptyString EmptyString
          (Some (MkForm [MkFormValue "passcode" "New password" EmptyString None]))] |}.

Definition reset_doc : Response := with_options [reset_option].

Definition issuer_url : URL := {| Scheme := "https"; Host := "example.okta.com" |}.

Definition pet_question : SecurityQuestion :=
  {| QuestionKey := "pet_name"; Question := "What is your pet's name?" |}.

Definition object (steps : list ResetPasswordStep) (question : option SecurityQuestion)
  : ResetPasswordResponse :=
  {| idxContext := Some session; token := None;
     availableSteps := steps; sq := question |}.

Definition start (steps : list ResetPasswordStep) (question : option SecurityQuestion)
  : RState :=
  {| obj := object steps question; world := world0 |}.

End Scenario.

(** The transitions of the password-reset flow that a caller can invoke on a
    response object, with their arguments. *)
Inductive Transition :=
| TVerifyEmail
| TConfirmEmail (code : string)
| TAnswerSecurityQuestion (answer : string)
| TSetNewPassword (password : string)
| TCancel.

(** The step each method tests with [HasStep] on entry. *)
Definition required_step (t : Transition) : ResetPasswordStep :=
  match t with
  | TVerifyEmail => ResetPasswordStepEmailVerification
  | TConfirmEmail _ => ResetPasswordStepEmailConfirmation
  | TAnswerSecurityQuestion _ => ResetPasswordStepAnswerSecurityQuestion
  | TSetNewPassword _ => ResetPasswordStepNewPassword
  | TCancel => ResetPasswordStepCancel
  end.

Definition run_transition (env : Env) (t : Transition) : M RState unit :=
  match t with
  | TVerifyEmail => VerifyEmail env
  | TConfirmEmail code => ConfirmEmail env code
  | TAnswerSecurityQuestion answer => AnswerSecurityQuestion env answer
  | TSetNewPassword password => SetNewPassword env password
  | TCancel => Cancel env
  end.

Unset Implicit Arguments.

(* ===================================================================== *)
(** ** Notions used to state further properties *)

(** The integer value of a step constant; [ResetPasswordStep] is a Go
    [int], embedded as an integer of [Z]. *)
Definition step_value (s : ResetPasswordStep) : Z := Z.of_nat (step_code s).

(** [resetStepText], keyed by the integer value of the constants, and
    [String()] on any integer of type [ResetPasswordStep], negative ones
    included. *)
Definition resetStepText : list (Z * string) :=
  [ (step_value ResetPasswordStepEmailVerification, "EMAIL_VERIFICATION");
    (step_value ResetPasswordStepEmailConfirmation, "EMAIL_CONFIRMATION");
    (step_value ResetPasswordStepAnswerSecurityQuestion, "ANSWER SECURITY_QUESTION");
    (step_value ResetPasswordStepNewPassword, "NEW_PASSWORD");
    (step_value ResetPasswordStepCancel, "CANCEL");
    (step_value ResetPasswordStepSkip, "SKIP");
    (step_value ResetPasswordStepSuccess, "SUCCESS") ].

Definition String_of_code (s : Z) : string :=
  match find (fun entry => Z.eqb (fst entry) s) resetStepText with
  | Some (_, v) => v
  | None => "UNKNOWN"
  end.

(** The call did not return normally: an error or a panic. *)
Definition failed {A : Type} (o : outcome A) : bool :=
  match o with
  | Ok _ => false
  | _ => true
  end.

Definition present {A : Type} (o : option A) : bool :=
  match o with
  | Some _ => true
  | None => false
  end.

(** The step appended by a probe that fired. *)
Definition when (b : bool) (s : ResetPasswordStep) : list ResetPasswordStep :=
  if b then [s] else [].

(** The answer of the "reset-authenticator" probe. *)
Definition offers_new_password (resp : Response) : bool :=
  match remediationOption resp "reset-authenticator" with
  | inr ro => has_new_password ro
  | inl _ => false
  end.

(** What the doc comment of [SecurityQuestion()] promises: the question is
    there whenever the [AnswerSecurityQuestion] step is available. *)
Definition question_invariant (r : ResetPasswordResponse) : Prop :=
  HasStep r ResetPasswordStepAnswerSecurityQuestion = true -> sq r <> None.

(** Run from [s], the computation [m] leaves the history of exchanges, seen
    through [proj], extended by at most [n] exchanges. *)
Definition sends_at_most {S A : Type} (proj : S -> World) (n : nat)
           (m : M S A) (s : S) : Prop :=
  exists l, calls (proj (snd (m s))) = (calls (proj s) ++ l)%list
            /\ (length l <= n)%nat.

(** Whenever [m] returns normally, the state it leaves satisfies [P]. *)
Definition returns_with {S A : Type} (P : S -> Prop) (m : M S A) : Prop :=
  forall s a s', m s = (Ok a, s') -> P s'.

(** The computation [m] never changes the response object. *)
Definition keeps_object {A : Type} (m : M RState A) : Prop :=
  forall s, obj (snd (m s)) = obj s.

(** The computation [m] leaves the response object as it was whenever it
    does not return normally. *)
Definition failure_atomic {A : Type} (m : M RState A) : Prop :=
  forall s, failed (fst (m s)) = true -> obj (snd (m s)) = obj s.

(* ===================================================================== *)
(** * Properties *)

(** ** The encoding *)

Module Base64Facts.
Import Base64.

Lemma by_triples (A : Type) (P : list A -> Prop) :
  P [] ->
  (forall a, P [a]) ->
  (forall a b, P [a; b]) ->
  (forall a b c rest, P rest -> P (a :: b :: c :: rest)) ->
  forall l, P l.
Proof.
  intros H0 H1 H2 H3.
  fix IH 1.
  intros [|a [|b [|c rest]]];
  [ exact H0 | apply H1 | apply H2 | apply H3; apply IH ].
Qed.

Lemma EncodedLen_step n : EncodedLen (S (S (S n))) = 4 + EncodedLen n.
Proof.
  unfold EncodedLen.
  replace (S (S (S n)) * 8 + 5) with ((n * 8 + 5) + 4 * 6) by lia.
  rewrite Nat.div_add by lia. lia.
Qed.

Lemma EncodeToString_length (src : list byte) :
  String.length (EncodeToString src) = EncodedLen (length src).
Proof.
  induction src as [| a | a b | a b c rest IH] using by_triples;
    try reflexivity.
  cbn [length]. rewrite EncodedLen_step.
  cbn [EncodeToString String.length]. rewrite IH. reflexivity.
Qed.

Lemma enc_url_safe (v : N) : url_safe (enc v) = true.
Proof.
  unfold enc.
  set (i := N.to_nat (N.land v 63)).
  destruct (Nat.lt_ge_cases i (length encodeURL_chars)) as [Hlt | Hge].
  - assert (Hall : forallb url_safe encodeURL_chars = true) by (vm_compute; reflexivity).
    rewrite forallb_forall in Hall. apply Hall. apply nth_In. exact Hlt.
  - rewrite nth_overflow by exact Hge. reflexivity.
Qed.

Lemma EncodeToString_alphabet (src : list byte) :
  all_chars url_safe (EncodeToString src) = true.
Proof.
  induction src as [| a | a b | a b c rest IH] using by_triples;
    cbn [EncodeToString all_chars]; unfold sextet;
    rewrite ?enc_url_safe, ?IH; reflexivity.
Qed.

End Base64Facts.

(** ** Facts on computations *)

Lemma bind_Ok_inv S A B (m : M S A) (k : A -> M S B) s b s' :
  bind m k s = (Ok b, s') ->
  exists a s1, m s = (Ok a, s1) /\ k a s1 = (Ok b, s').
Proof.
  unfold bind. destruct (m s) as [[a | e |] s1]; intro H; try discriminate.
  exists a, s1. split; [reflexivity | exact H].
Qed.

Lemma bind_Ok S A B (m : M S A) (k : A -> M S B) s a s1 :
  m s = (Ok a, s1) -> bind m k s = k a s1.
Proof. unfold bind. intros ->. reflexivity. Qed.

Lemma bind_Err S A B (m : M S A) (k : A -> M S B) s e s1 :
  m s = (Err e, s1) -> bind m k s = (Err e, s1).
Proof. unfold bind. intros ->. reflexivity. Qed.

(** ** Facts on strings *)

Lemma append_assoc_string (a b c : string) : (a ++ b) ++ c = a ++ (b ++ c).
Proof. induction a as [| x a IH]; cbn [String.append]; [ | rewrite IH ]; reflexivity. Qed.

Lemma cat_app (l1 l2 : list string) : cat (l1 ++ l2)%list = cat l1 ++ cat l2.
Proof.
  induction l1 as [| x l1 IH]; cbn [cat fold_right app String.append].
  - reflexivity.
  - fold (cat (l1 ++ l2)%list). fold (cat l1). rewrite IH, append_assoc_string.
    reflexivity.
Qed.

Lemma contains_cat (l1 : list string) (x : string) (l2 : list string) :
  contains (cat (l1 ++ x :: l2)%list) x.
Proof.
  exists (cat l1), (cat l2). rewrite cat_app. reflexivity.
Qed.

Lemma exchangeForm_contains_secret (secret verifier : string) :
  contains (exchangeForm secret verifier) secret.
Proof.
  unfold exchangeForm.
  exact (contains_cat
           [ "{"; nl; tabs 3; q "client_secret"; ": "; dq ] secret
           [ dq; ","; nl; tabs 3; q "code_verifier"; ": "; dq; verifier; dq; nl;
             tabs 2; "}" ]).
Qed.

Lemma exchangeForm_contains_verifier (secret verifier : string) :
  contains (exchangeForm secret verifier) verifier.
Proof.
  unfold exchangeForm.
  exact (contains_cat
           [ "{"; nl; tabs 3; q "client_secret"; ": "; dq; secret; dq; ","; nl;
             tabs 3; q "code_verifier"; ": "; dq ] verifier
           [ dq; nl; tabs 2; "}" ]).
Qed.

Section Properties.

Variable env : Env.

(** *** Preconditions of the transitions *)

Lemma require_step_absent s st :
  HasStep (obj st) s = false ->
  require_step s st = (Err (ErrorfSteps step_not_available (AvailableSteps (obj st))), st).
Proof. unfold require_step, bind, gets. intros ->. reflexivity. Qed.

Lemma require_step_present s st :
  HasStep (obj st) s = true -> require_step s st = (Ok tt, st).
Proof. unfold require_step, bind, gets. intros ->. reflexivity. Qed.

(** C1. A transition whose required step is not among the available steps
    returns the error built from [step_not_available] and the current
    available steps, and ends in the state it started in: the history of
    exchanges is the same (no Introspect, no Proceed, no other call) and the
    response object (availableSteps, sq, token) is the same. *)
Theorem transition_rejected_without_required_step (t : Transition) (st : RState) :
  HasStep (obj st) (required_step t) = false ->
  run_transition env t st =
    (Err (ErrorfSteps step_not_available (AvailableSteps (obj st))), st).
Proof.
  intro H.
  destruct t; cbn [run_transition required_step] in *;
    [ unfold VerifyEmail | unfold ConfirmEmail | unfold AnswerSecurityQuestion
    | unfold SetNewPassword | unfold Cancel ];
    apply bind_Err; apply require_step_absent; exact H.
Qed.

(** *** Step recomputation *)

(** On a document without success marker, [setupNextSteps] makes no
    exchange: it caches the question, and either stores the steps it found or,
    when it found none, fails with the document's messages; with no
    [Messages] at all, reading [resp.Messages.Values] dereferences nil. *)
Lemma setupNextSteps_not_success (resp : Response) (st : RState) :
  LoginSuccess resp = false ->
  setupNextSteps env resp st =
    match next_steps resp with
    | [] =>
        match Messages resp with
        | Some m => (Err (ErrorfMessages no_more_steps (Values m)), st)
        | None => (Panic, st)
        end
    | steps => (Ok tt, set_availableSteps steps (cache_question resp st))
    end.
Proof.
  intro Hns. unfold setupNextSteps. rewrite Hns.
  unfold next_steps, cache_question, question_of.
  destruct (remediationOption resp "challenge-authenticator") as [e | ro];
    [ | destruct (find_question ro) as [question |] ];
    cbv [bind modify ret fail panic].
  - destruct (add_new_password resp (steps_before_question resp)) as [| x l].
    + destruct (Messages resp); reflexivity.
    + reflexivity.
  - destruct (add_new_password resp _) as [| x l] eqn:Hadd.
    + exfalso. unfold add_new_password in Hadd.
      destruct (remediationOption resp "reset-authenticator") as [e | ro'];
        [ | destruct (has_new_password ro') ];
        apply app_eq_nil in Hadd; destruct Hadd; discriminate.
    + reflexivity.
  - destruct (add_new_password resp (steps_before_question resp)) as [| x l].
    + destruct (Messages resp); reflexivity.
    + reflexivity.
Qed.

(** C7. On a document without success marker, a second run of
    [setupNextSteps] on the same document ends like the first and leaves the
    state the first one reached: the same available steps and the same cached
    security question. *)
Theorem setupNextSteps_idempotent (resp : Response) (st : RState) :
  LoginSuccess resp = false ->
  let once := setupNextSteps env resp st in
  let twice := setupNextSteps env resp (snd once) in
  availableSteps (obj (snd twice)) = availableSteps (obj (snd once))
  /\ sq (obj (snd twice)) = sq (obj (snd once))
  /\ twice = once.
Proof.
  intros Hns once twice.
  assert (H : twice = once).
  { subst once twice. rewrite (setupNextSteps_not_success resp st Hns).
    destruct (next_steps resp) as [| x l] eqn:Hsteps.
    - destruct (Messages resp) as [m |] eqn:Hm; cbn [snd];
        rewrite (setupNextSteps_not_success resp st Hns), Hsteps, Hm; reflexivity.
    - cbn [snd]. rewrite (setupNextSteps_not_success resp _ Hns), Hsteps.
      f_equal. unfold cache_question.
      destruct (question_of resp); reflexivity. }
  rewrite H. auto.
Qed.

(** *** The success marker *)

Lemma LoginSuccess_of_marker (resp : Response) (so : SuccessOption) :
  SuccessResponse resp = Some so -> LoginSuccess resp = true.
Proof. unfold LoginSuccess. intros ->. reflexivity. Qed.

(** C2 (amended). On a document with a success marker and a response object
    that holds a session context, [setupNextSteps] makes exactly one
    exchange, the token exchange, whose body contains the configured client
    secret and the session's codeVerifier. If the exchange returns a token,
    the call succeeds, the available steps become exactly [Success] and the
    token is stored; if it does not, the call returns an error and the
    response object is left as it was. *)
Theorem setupNextSteps_success_marker
        (resp : Response) (so : SuccessOption) (ictx : Context) (st : RState) :
  SuccessResponse resp = Some so ->
  idxContext (obj st) = Some ictx ->
  let payload := exchangeForm (ClientSecret (idx env)) (CodeVerifier ictx) in
  let call := CallExchangeCode so payload in
  let run := setupNextSteps env resp st in
  calls (world (snd run)) = (calls (world st) ++ [call])%list
  /\ contains payload (ClientSecret (idx env))
  /\ contains payload (CodeVerifier ictx)
  /\ (forall t, Do env (calls (world st)) call = GotToken t ->
        fst run = Ok tt
        /\ availableSteps (obj (snd run)) = [ResetPasswordStepSuccess]
        /\ token (obj (snd run)) = Some t)
  /\ ((forall t, Do env (calls (world st)) call <> GotToken t) ->
        (exists e, fst run = Err e) /\ obj (snd run) = obj st).
Proof.
  intros Hso Hctx payload call run.
  assert (Hrun : run =
    match Do env (calls (world st)) call with
    | GotToken t =>
        (Ok tt,
         set_availableSteps [ResetPasswordStepSuccess]
           (set_token (Some t) {| obj := obj st; world := add_call call (world st) |}))
    | DoFailed e =>
        (Err (ErrorfWrap "http call has failed: %w" e),
         {| obj := obj st; world := add_call call (world st) |})
    | BodyFailed e =>
        (Err e, {| obj := obj st; world := add_call call (world st) |})
    | StatusNotOK msgs =>
        (Err (ErrorResponse msgs),
         {| obj := obj st; world := add_call call (world st) |})
    | _ => (Err unmarshal_mismatch,
            {| obj := obj st; world := add_call call (world st) |})
    end).
  { subst run. unfold setupNextSteps.
    rewrite (LoginSuccess_of_marker resp so Hso).
    cbv [bind gets]. rewrite Hctx, Hso.
    cbv [lift ExchangeCode exchange bind].
    fold payload. fold call.
    destruct (Do env (calls (world st)) call); reflexivity. }
  split; [ | split; [ | split; [ | split ] ] ].
  - rewrite Hrun. destruct (Do env (calls (world st)) call); reflexivity.
  - apply exchangeForm_contains_secret.
  - apply exchangeForm_contains_verifier.
  - intros t Ht. rewrite Hrun, Ht. repeat split.
  - intros Hnot. rewrite Hrun.
    destruct (Do env (calls (world st)) call) as [e | e | msgs | h | d | t];
      try (split; [ eexists; reflexivity | reflexivity ]).
    exfalso. exact (Hnot t eq_refl).
Qed.

(** *** The email authenticator *)

Lemma find_some_of_In (A : Type) (p : A -> bool) (l : list A) (a : A) :
  In a l -> p a = true -> exists b, find p l = Some b.
Proof.
  induction l as [| x l IH]; intros Hin Hp; [ contradiction | ].
  cbn [find]. destruct (p x) eqn:Hx; [ eexists; reflexivity | ].
  destruct Hin as [-> | Hin]; [ congruence | auto ].
Qed.

Lemma find_nested_of_In (p : FormValue -> bool) (fvs : list FormValue)
      (fv : FormValue) (l : list FormValue) (f : FormValue) :
  In fv fvs -> fvForm fv = Some (MkForm l) -> In f l -> p f = true ->
  exists f', find_nested p fvs = Some f'.
Proof.
  intros Hfv Hform Hf Hp.
  induction fvs as [| x fvs IH]; [ contradiction | ].
  cbn [find_nested].
  destruct Hfv as [-> | Hfv].
  - rewrite Hform. destruct l as [| y l]; [ contradiction | ].
    destruct (find_some_of_In _ p (y :: l) f Hf Hp) as [b Hb].
    rewrite Hb. eexists; reflexivity.
  - destruct (IH Hfv) as [f' Hf'].
    destruct (fvForm x) as [[[| y ys]] |]; try (eexists; exact Hf').
    destruct (find p (y :: ys)); eexists; [ reflexivity | exact Hf' ].
Qed.

Lemma has_step_last (l : list ResetPasswordStep) (s : ResetPasswordStep) :
  has_step (l ++ [s])%list s = true.
Proof.
  induction l as [| x l IH]; cbn [app has_step].
  - unfold step_eqb. rewrite Nat.eqb_refl. reflexivity.
  - destruct (step_eqb x s); [ reflexivity | exact IH ].
Qed.

Lemma require_step_Ok_inv (step : ResetPasswordStep) (st : RState) (a : unit)
      (s1 : RState) :
  require_step step st = (Ok a, s1) -> HasStep (obj st) step = true /\ s1 = st.
Proof.
  unfold require_step, bind, gets.
  destruct (HasStep (obj st) step); cbn [negb]; cbv [fail ret]; intro H;
    inversion H; auto.
Qed.

Lemma lift_Ok_inv (A : Type) (m : M World A) (st : RState) (a : A) (s1 : RState) :
  lift m st = (Ok a, s1) ->
  m (world st) = (Ok a, world s1) /\ s1 = {| obj := obj st; world := world s1 |}.
Proof.
  unfold lift. destruct (m (world st)) as [o w]. intro H. inversion H; subst.
  split; reflexivity.
Qed.

Lemma require_enrollment_Ok_inv (S : Type) (resp : Response) (s : S) (en : Enrollment)
      (s1 : S) :
  @require_enrollment S resp s = (Ok en, s1) ->
  CurrentAuthenticatorEnrollment resp = Some en /\ s1 = s.
Proof.
  unfold require_enrollment.
  destruct (CurrentAuthenticatorEnrollment resp) as [en' |];
    [ | destruct (Messages resp) ]; cbv [fail ret]; intro H; inversion H; auto.
Qed.

Lemma of_result_Ok_inv (S A : Type) (r : error + A) (s : S) (a : A) (s1 : S) :
  of_result r s = (Ok a, s1) -> r = inr a /\ s1 = s.
Proof.
  destruct r; cbv [of_result fail ret]; intro H; inversion H; auto.
Qed.

(** [VerifyEmail] returns normally exactly along its successful course, and
    then the steps are the recomputed ones followed by
    [EmailConfirmation]. *)
Lemma VerifyEmail_Ok_iff (st0 st1 : RState) :
  VerifyEmail env st0 = (Ok tt, st1) <->
  exists last s',
    VerifyEmail_course env st0 last s'
    /\ st1 = set_availableSteps
               (availableSteps (obj s') ++ [ResetPasswordStepEmailConfirmation])%list s'.
Proof.
  split.
  - unfold VerifyEmail. intro H.
    apply bind_Ok_inv in H. destruct H as (u & s1 & Hguard & H).
    apply require_step_Ok_inv in Hguard. destruct Hguard as [Hstep ->].
    apply bind_Ok_inv in H. destruct H as (r & s2 & Hr & H).
    cbv [gets] in Hr. inversion Hr; subst r s2. clear Hr.
    apply bind_Ok_inv in H. destruct H as (resp0 & s3 & Hi & H).
    apply lift_Ok_inv in Hi. destruct Hi as [Hi Hs3].
    apply bind_Ok_inv in H. destruct H as (en & s4 & Hen & H).
    apply require_enrollment_Ok_inv in Hen. destruct Hen as [Hen ->].
    apply bind_Ok_inv in H. destruct H as (resp1 & s5 & Hp1 & H).
    apply lift_Ok_inv in Hp1. destruct Hp1 as [Hp1 Hs5].
    apply bind_Ok_inv in H. destruct H as ([ro authID] & s6 & Hauth & H).
    apply of_result_Ok_inv in Hauth. destruct Hauth as [Hauth ->].
    apply bind_Ok_inv in H. destruct H as (last & s7 & Hp2 & H).
    apply lift_Ok_inv in Hp2. destruct Hp2 as [Hp2 Hs7].
    apply bind_Ok_inv in H. destruct H as ([] & s8 & Hsetup & H).
    cbv [bind gets modify ret] in H. inversion H; subst st1. clear H.
    exists last, s8. split; [ | reflexivity ].
    split; [ exact Hstep | ].
    exists resp0, (world s3), en, resp1, (world s5), ro, authID, (world s7).
    rewrite Hs3 in Hp1. cbn [world obj] in Hp1.
    rewrite Hs5 in Hp2. cbn [world obj] in Hp2.
    rewrite Hs7, Hs5, Hs3 in Hsetup. cbn [world obj] in Hsetup.
    repeat split; assumption.
  - intros (last & s' & (Hstep & resp0 & w1 & en & resp1 & w2 & ro & authID & w3
                         & Hi & Hen & Hp1 & Hauth & Hp2 & Hsetup) & ->).
    unfold VerifyEmail.
    rewrite (bind_Ok _ _ _ _ _ _ _ _ (require_step_present _ _ Hstep)).
    rewrite (bind_Ok _ _ _ _ _ _ _ _ (eq_refl : gets obj st0 = (Ok (obj st0), st0))).
    assert (Hl1 : lift (Introspect env (idx env) (idxContext (obj st0))) st0
                  = (Ok resp0, {| obj := obj st0; world := w1 |}))
      by (unfold lift; rewrite Hi; reflexivity).
    rewrite (bind_Ok _ _ _ _ _ _ _ _ Hl1).
    unfold require_enrollment at 1. rewrite Hen.
    rewrite (bind_Ok _ _ _ _ _ _ _ _
               (eq_refl : ret en {| obj := obj st0; world := w1 |}
                          = (Ok en, {| obj := obj st0; world := w1 |}))).
    assert (Hl2 : lift (Proceed env (Recover en) EmptyString)
                       {| obj := obj st0; world := w1 |}
                  = (Ok resp1, {| obj := obj st0; world := w2 |}))
      by (unfold lift; cbn [world obj]; rewrite Hp1; reflexivity).
    rewrite (bind_Ok _ _ _ _ _ _ _ _ Hl2).
    rewrite Hauth. cbv [of_result].
    rewrite (bind_Ok _ _ _ _ _ _ _ _
               (eq_refl : ret (ro, authID) {| obj := obj st0; world := w2 |}
                          = (Ok (ro, authID), {| obj := obj st0; world := w2 |}))).
    assert (Hl3 : lift (Proceed env ro (authenticator_body authID))
                       {| obj := obj st0; world := w2 |}
                  = (Ok last, {| obj := obj st0; world := w3 |}))
      by (unfold lift; cbn [world obj]; rewrite Hp2; reflexivity).
    rewrite (bind_Ok _ _ _ _ _ _ _ _ Hl3).
    rewrite (bind_Ok _ _ _ _ _ _ _ _ Hsetup).
    reflexivity.
Qed.

(** C6. On a document whose only remediation option is
    "select-authenticator-authenticate", holding a nested form with a field
    labelled "Email", and with neither cancel nor success marker,
    [setupNextSteps] succeeds and sets the available steps to exactly
    [EmailVerification], which makes [VerifyEmail] available. [VerifyEmail]
    returns normally exactly along its successful course, which ends with
    the recomputation on the document that answers the selection of the
    authenticator; the steps it leaves are the recomputed ones followed by
    [EmailConfirmation], appended by the transition itself, so that after
    every successful [VerifyEmail] the steps include [EmailConfirmation]. *)
Theorem email_verification_then_confirmation
        (resp : Response) (ro : RemediationOption)
        (fv : FormValue) (l : list FormValue) (f : FormValue) (st : RState) :
  Remediation resp = [ro] ->
  roName ro = "select-authenticator-authenticate" ->
  In fv (roFormValues ro) -> fvForm fv = Some (MkForm l) ->
  In f l -> fvLabel f = "Email" ->
  CancelResponse resp = None ->
  SuccessResponse resp = None ->
  setupNextSteps env resp st =
    (Ok tt, set_availableSteps [ResetPasswordStepEmailVerification] st)
  /\ HasStep (obj (snd (setupNextSteps env resp st)))
             ResetPasswordStepEmailVerification = true
  /\ (forall st0 st1,
        VerifyEmail env st0 = (Ok tt, st1) <->
        exists last s',
          VerifyEmail_course env st0 last s'
          /\ st1 = set_availableSteps
                     (availableSteps (obj s')
                      ++ [ResetPasswordStepEmailConfirmation])%list s')
  /\ (forall st0 st1,
        VerifyEmail env st0 = (Ok tt, st1) ->
        HasStep (obj st1) ResetPasswordStepEmailConfirmation = true).
Proof.
  intros Hrem Hname Hfv Hform Hf Hlabel Hcancel Hsuccess.
  assert (Hsetup : setupNextSteps env resp st =
                     (Ok tt, set_availableSteps [ResetPasswordStepEmailVerification] st)).
  { assert (Hemail : exists f',
              find_nested (fun f => String.eqb (fvLabel f) "Email") (roFormValues ro)
              = Some f').
    { apply (find_nested_of_In _ _ fv l f Hfv Hform Hf).
      rewrite Hlabel. reflexivity. }
    destruct Hemail as [f' Hf'].
    assert (Hlookup : forall name,
              remediationOption resp name =
                if String.eqb "select-authenticator-authenticate" name
                then inr ro
                else inl (ErrorfString
                            "could not locate a remediation option with the name '%s'"
                            name)).
    { intro name. unfold remediationOption. rewrite Hrem. cbn [find].
      rewrite Hname. destruct (String.eqb _ name); reflexivity. }
    rewrite setupNextSteps_not_success
      by (unfold LoginSuccess; rewrite Hsuccess; reflexivity).
    assert (Hq : question_of resp = None).
    { unfold question_of. rewrite Hlookup. reflexivity. }
    unfold next_steps, cache_question. rewrite Hq.
    unfold add_new_password, steps_before_question, authenticatorOption.
    rewrite !Hlookup, Hcancel. cbn [String.eqb Ascii.eqb Bool.eqb is_ok].
    rewrite Hf'. reflexivity. }
  split; [ exact Hsetup | ].
  split; [ rewrite Hsetup; reflexivity | ].
  split; [ exact VerifyEmail_Ok_iff | ].
  intros st0 st1 Hverify.
  apply VerifyEmail_Ok_iff in Hverify.
  destruct Hverify as (last & s' & _ & ->).
  unfold HasStep. cbn [set_availableSteps obj availableSteps].
  apply has_step_last.
Qed.

(** *** Answering the security question *)

(** C3 (amended). Let [AnswerSecurityQuestion] be called with its step
    available. Once the answer has been submitted, that is when introspection,
    the lookup of "challenge-authenticator" and [Proceed] have succeeded, the
    cached security question is empty when the call ends, whether the step
    recomputation succeeds or fails. When introspection, the lookup or the
    submission fails, the call returns that error and the response object,
    with its cached question, is as before. *)
Theorem AnswerSecurityQuestion_clears_once_submitted (answer : string) (st : RState) :
  HasStep (obj st) ResetPasswordStepAnswerSecurityQuestion = true ->
  let run := AnswerSecurityQuestion env answer st in
  let introspected := Introspect env (idx env) (idxContext (obj st)) (world st) in
  (forall resp w1 ro question resp' w2,
      introspected = (Ok resp, w1) ->
      remediationOption resp "challenge-authenticator" = inr ro ->
      sq (obj st) = Some question ->
      Proceed env ro (answer_body (QuestionKey question) answer) w1 = (Ok resp', w2) ->
      sq (obj (snd run)) = None)
  /\ (forall e w1,
         introspected = (Err e, w1) ->
         run = (Err e, {| obj := obj st; world := w1 |}))
  /\ (forall resp w1 e,
         introspected = (Ok resp, w1) ->
         remediationOption resp "challenge-authenticator" = inl e ->
         run = (Err e, {| obj := obj st; world := w1 |}))
  /\ (forall resp w1 ro question e w2,
         introspected = (Ok resp, w1) ->
         remediationOption resp "challenge-authenticator" = inr ro ->
         sq (obj st) = Some question ->
         Proceed env ro (answer_body (QuestionKey question) answer) w1 = (Err e, w2) ->
         run = (Err e, {| obj := obj st; world := w2 |})).
Proof.
  intros Hstep run introspected.
  assert (Hrun : run =
    match introspected with
    | (Ok resp, w1) =>
        match remediationOption resp "challenge-authenticator" with
        | inl e => (Err e, {| obj := obj st; world := w1 |})
        | inr ro =>
            match sq (obj st) with
            | None => (Panic, {| obj := obj st; world := w1 |})
            | Some question =>
                match Proceed env ro (answer_body (QuestionKey question) answer) w1 with
                | (Ok resp', w2) =>
                    with_defer (set_sq None) (setupNextSteps env resp')
                               {| obj := obj st; world := w2 |}
                | (Err e, w2) => (Err e, {| obj := obj st; world := w2 |})
                | (Panic, w2) => (Panic, {| obj := obj st; world := w2 |})
                end
            end
        end
    | (Err e, w1) => (Err e, {| obj := obj st; world := w1 |})
    | (Panic, w1) => (Panic, {| obj := obj st; world := w1 |})
    end).
  { subst run introspected. unfold AnswerSecurityQuestion.
    rewrite (bind_Ok _ _ _ _ _ _ _ _ (require_step_present _ _ Hstep)).
    cbv [bind gets lift of_result fail ret panic].
    destruct (Introspect env (idx env) (idxContext (obj st)) (world st))
      as [[resp | e |] w1]; try reflexivity.
    destruct (remediationOption resp "challenge-authenticator") as [e | ro];
      try reflexivity.
    cbn [obj world]. destruct (sq (obj st)) as [question |]; try reflexivity.
    cbn [obj world].
    destruct (Proceed env ro _ w1) as [[resp' | e |] w2]; reflexivity. }
  repeat split.
  - intros resp w1 ro question resp' w2 Hi Hro Hq Hp.
    rewrite Hrun, Hi, Hro, Hq, Hp. unfold with_defer.
    destruct (setupNextSteps env resp' _) as [o s']. reflexivity.
  - intros e w1 Hi. rewrite Hrun, Hi. reflexivity.
  - intros resp w1 e Hi Hro. rewrite Hrun, Hi, Hro. reflexivity.
  - intros resp w1 ro question e w2 Hi Hro Hq Hp.
    rewrite Hrun, Hi, Hro, Hq, Hp. reflexivity.
Qed.

(** *** Authentication *)

Lemma handleRemediation_not_success
      (c : Client) (idxContext : option Context) (response : Response) (w : World) :
  LoginSuccess response = false ->
  handleRemediation env c idxContext response w =
    (Ok (Some {| ar_idxContext := idxContext; ar_token := None;
                 authenticationStatus := EmptyString |}), w).
Proof. unfold handleRemediation. intros ->. reflexivity. Qed.

(** C10. When interaction and introspection succeed, the "identify" option
    is present and [IsIdentityFirst] answers false, [Authenticate] returns
    neither a response nor an error: the result is [(nil, nil)], and nothing
    is exchanged after the introspection. *)
Theorem Authenticate_not_identity_first
        (c : Client) (options : AuthenticationOptions) (w : World)
        (ictx : Context) (w1 : World) (resp : Response) (w2 : World)
        (ro : RemediationOption) :
  Interact env c w = (Ok ictx, w1) ->
  Introspect env c (Some ictx) w1 = (Ok resp, w2) ->
  getRemediationOption resp "identify" = inr ro ->
  IsIdentityFirst env ro = inr false ->
  Authenticate env c options w = (Ok None, w2).
Proof.
  intros Hinteract Hintrospect Hro Hfirst.
  unfold Authenticate.
  rewrite (bind_Ok _ _ _ _ _ _ _ _ Hinteract).
  rewrite (bind_Ok _ _ _ _ _ _ _ _ Hintrospect).
  rewrite Hro. cbv [bind of_result ret fail]. rewrite Hfirst. reflexivity.
Qed.

(** *** Interaction and PKCE *)

(** C8. Every [Interact] call either fails in the random source before
    anything is built, or generates a codeVerifier that is the unpadded
    URL-safe base64 encoding of 86 bytes read from the random source (115
    characters of the URL-safe alphabet) and a state that is the encoding of
    the next 16 bytes (22 characters), and builds the interaction request
    whose challenge is the encoding of the SHA-256 digest of the encoded
    codeVerifier, with method "S256" and that state. If the request cannot
    be created the call returns that error and sends nothing; otherwise it
    sends exactly this one request, and a returned context carries this
    codeVerifier and state. *)
Theorem Interact_pkce (c : Client) (w : World) :
  let run := Interact env c w in
  let raw_verifier := map (entropy env) (seq (rand_pos w) 86) in
  let raw_state := map (entropy env) (seq (rand_pos w + 86) 16) in
  let verifier := Base64.EncodeToString raw_verifier in
  let state_value := Base64.EncodeToString raw_state in
  (exists e,
      (crand_err env (rand_pos w) = Some e
       \/ crand_err env (rand_pos w + 86) = Some e)
      /\ (exists e', fst run = Err e') /\ calls (snd run) = calls w)
  \/ (length raw_verifier = 86 /\ length raw_state = 16
      /\ String.length verifier = 115
      /\ Base64.all_chars Base64.url_safe verifier = true
      /\ String.length state_value = 22
      /\ Base64.all_chars Base64.url_safe state_value = true
      /\ exists data,
           code_challenge data =
             Base64.EncodeToString
               (sha256_Sum env (list_byte_of_string verifier))
           /\ code_challenge data = codeChallengeOf env verifier
           /\ code_challenge_method data = "S256"
           /\ form_state data = state_value
           /\ match http_NewRequest env (calls w)
                                    (CallInteract (Issuer c ++ "/v1/interact") data) with
              | Some e =>
                  fst run = Err (ErrorfWrap "failed to create interact http request: %w" e)
                  /\ calls (snd run) = calls w
              | None =>
                  calls (snd run) =
                    (calls w ++ [CallInteract (Issuer c ++ "/v1/interact") data])%list
                  /\ forall ictx, fst run = Ok ictx ->
                       codeVerifier ictx = verifier /\ state ictx = state_value
              end).
Proof.
  intros run raw_verifier raw_state verifier state_value.
  subst run. unfold Interact, createCodeVerifier, createState.
  cbv [bind wrap_err crand_Read ret].
  destruct (crand_err env (rand_pos w)) as [e |] eqn:He1.
  { left. exists e. cbn [fst snd]. repeat split; eauto. }
  cbn [rand_pos calls].
  destruct (crand_err env (rand_pos w + 86)) as [e |] eqn:He2.
  { left. exists e. cbn [fst snd calls]. repeat split; eauto. }
  right.
  assert (Hlen1 : length raw_verifier = 86)
    by (subst raw_verifier; rewrite length_map, length_seq; reflexivity).
  assert (Hlen2 : length raw_state = 16)
    by (subst raw_state; rewrite length_map, length_seq; reflexivity).
  split; [ exact Hlen1 | ]. split; [ exact Hlen2 | ].
  split; [ subst verifier; rewrite Base64Facts.EncodeToString_length, Hlen1; reflexivity | ].
  split; [ apply Base64Facts.EncodeToString_alphabet | ].
  split; [ subst state_value; rewrite Base64Facts.EncodeToString_length, Hlen2; reflexivity | ].
  split; [ apply Base64Facts.EncodeToString_alphabet | ].
  fold raw_verifier. fold raw_state. fold verifier. fold state_value.
  exists {| client_id := ClientID c;
            scope := join_space (Scopes c);
            code_challenge := codeChallengeOf env verifier;
            code_challenge_method := "S256";
            redirect_uri := RedirectURI c;
            form_state := state_value |}.
  split; [ reflexivity | ]. split; [ reflexivity | ].
  split; [ reflexivity | ]. split; [ reflexivity | ].
  unfold new_request. cbn [calls rand_pos].
  destruct (http_NewRequest env (calls w) _) as [e |].
  - split; reflexivity.
  - unfold exchange, decode, add_call. cbn [calls rand_pos].
    match goal with
    | |- context [Do env ?h ?call] => destruct (Do env h call)
    end; cbn [fst snd calls pick_handle fail ret];
      (split; [ reflexivity | ]);
      intros ictx Hictx; inversion Hictx; split; reflexivity.
Qed.

End Properties.

(* ===================================================================== *)
(** * The properties on concrete runs *)

Section Runs.

Import Scenario.

(** [ConfirmEmail] before [VerifyEmail]: rejected, nothing exchanged. *)
Lemma transition_rejected_run :
  run_transition (env_of [] true) (TConfirmEmail "123456")
                 (start [ResetPasswordStepEmailVerification] None)
  = (Err (ErrorfSteps step_not_available [ResetPasswordStepEmailVerification]),
     start [ResetPasswordStepEmailVerification] None).
Proof.
  exact (transition_rejected_without_required_step
           (env_of [] true) (TConfirmEmail "123456")
           (start [ResetPasswordStepEmailVerification] None) eq_refl).
Defined.

(** A success marker whose token exchange fails in the transport: the steps
    are not [Success] and no token is stored. *)
Lemma success_marker_with_failed_exchange :
  let env := env_of [DoFailed (LibError "timeout")] true in
  let run := setupNextSteps env success_doc
                            (start [ResetPasswordStepNewPassword] None) in
  LoginSuccess success_doc = true
  /\ fst run = Err (ErrorfWrap "http call has failed: %w" (LibError "timeout"))
  /\ availableSteps (obj (snd run)) <> [ResetPasswordStepSuccess]
  /\ token (obj (snd run)) = None.
Proof.
  cbv zeta. repeat split; try reflexivity.
  vm_compute. discriminate.
Qed.

Lemma success_marker_run :
  let env := env_of [GotToken "tok"] true in
  let run := setupNextSteps env success_doc
                            (start [ResetPasswordStepNewPassword] None) in
  fst run = Ok tt
  /\ availableSteps (obj (snd run)) = [ResetPasswordStepSuccess]
  /\ token (obj (snd run)) = Some "tok"
  /\ calls (world (snd run))
     = [CallExchangeCode success_option (exchangeForm "s3cret" "verifier-0")].
Proof.
  cbv zeta.
  destruct (setupNextSteps_success_marker
              (env_of [GotToken "tok"] true) success_doc success_option session
              (start [ResetPasswordStepNewPassword] None) eq_refl eq_refl)
    as (Hcalls & _ & _ & Hok & _).
  destruct (Hok "tok" eq_refl) as (H1 & H2 & H3).
  repeat split; assumption.
Defined.

(** Introspection fails: the question stays cached. *)
Lemma answer_with_failed_introspection_keeps_question :
  let env := env_of [DoFailed (LibError "connection refused")] true in
  let st := start [ResetPasswordStepAnswerSecurityQuestion] (Some pet_question) in
  let run := AnswerSecurityQuestion env "rex" st in
  HasStep (obj st) ResetPasswordStepAnswerSecurityQuestion = true
  /\ fst run = Err (ErrorfWrap "http call has failed: %w" (LibError "connection refused"))
  /\ sq (obj (snd run)) = Some pet_question
  /\ sq (obj (snd run)) <> None.
Proof.
  cbv zeta. repeat split; try reflexivity.
  vm_compute. discriminate.
Qed.

Lemma answer_submitted_run :
  let env := env_of [GotResponse question_doc; GotResponse success_doc; GotToken "tok"] true in
  let st := start [ResetPasswordStepAnswerSecurityQuestion] (Some pet_question) in
  sq (obj (snd (AnswerSecurityQuestion env "rex" st))) = None.
Proof.
  cbv zeta.
  refine (proj1 (AnswerSecurityQuestion_clears_once_submitted
                   (env_of [GotResponse question_doc; GotResponse success_doc;
                            GotToken "tok"] true)
                   "rex"
                   (start [ResetPasswordStepAnswerSecurityQuestion] (Some pet_question))
                   eq_refl)
                question_doc _ question_option pet_question success_doc _ _ _ _ _);
    cbv; reflexivity.
Defined.

(** C4. The document with no marker, no remediation option and no
    [Messages] makes [setupNextSteps] dereference the nil [resp.Messages]:
    it panics, leaving the state as it was, instead of returning the
    dead-end error; it returns that error only when [Messages] is present.
    [InitPasswordReset] whose last document is this one panics likewise. *)
Theorem setupNextSteps_dead_end_without_messages :
  (forall env st, setupNextSteps env empty_doc st = (Panic, st))
  /\ (forall env st m,
         setupNextSteps env
           {| Remediation := []; CancelResponse := None; SuccessResponse := None;
              CurrentAuthenticatorEnrollment := None; Messages := Some m |} st
         = (Err (ErrorfMessages no_more_steps (Values m)), st))
  /\ fst (InitPasswordReset
            (env_of [GotHandle "h"; GotResponse identify_doc;
                     GotResponse enrollment_doc; GotResponse empty_doc] true)
            client {| Identifier := "user@example.com"; RememberMe := false |}
            world0)
     = Panic.
Proof.
  split; [ | split ].
  - intros env st. rewrite setupNextSteps_not_success by reflexivity. reflexivity.
  - intros env st m. rewrite setupNextSteps_not_success by reflexivity. reflexivity.
  - vm_compute. reflexivity.
Qed.

(** C5. An identifier-first [Authenticate] whose last document has no
    success marker returns a response and no error, but the status of that
    response is the empty string: [handleRemediation] never assigns
    [AuthStatusUnhandled]. *)
Theorem Authenticate_unfinished_flow_has_empty_status :
  let env := env_of [GotHandle "h"; GotResponse identify_doc;
                     GotResponse passcode_doc; GotResponse email_doc] true in
  exists ar w,
    Authenticate env client {| Username := "user@example.com"; Password := "pw" |} world0
    = (Ok (Some ar), w)
    /\ LoginSuccess email_doc = false
    /\ authenticationStatus ar = EmptyString
    /\ authenticationStatus ar <> AuthStatusUnhandled.
Proof.
  cbv zeta. eexists. eexists.
  split; [ vm_compute; reflexivity | ].
  split; [ reflexivity | ].
  split; [ reflexivity | ].
  cbn [authenticationStatus]. discriminate.
Qed.

Lemma email_verification_run :
  let env := env_of [GotResponse enrollment_doc; GotResponse email_doc;
                     GotResponse email_challenge_doc] true in
  let st0 := start [ResetPasswordStepEmailVerification] None in
  setupNextSteps env email_doc (start [] None)
  = (Ok tt, start [ResetPasswordStepEmailVerification] None)
  /\ fst (VerifyEmail env st0) = Ok tt
  /\ availableSteps (obj (snd (VerifyEmail env st0)))
     = [ResetPasswordStepCancel; ResetPasswordStepEmailConfirmation]
  /\ HasStep (obj (snd (VerifyEmail env st0))) ResetPasswordStepEmailConfirmation = true.
Proof.
  cbv zeta.
  destruct (email_verification_then_confirmation
              (env_of [GotResponse enrollment_doc; GotResponse email_doc;
                       GotResponse email_challenge_doc] true)
              email_doc email_option
              (MkFormValue "authenticator" EmptyString EmptyString
                 (Some (MkForm [MkFormValue "id" "Email" "aut-email-1" None])))
              [MkFormValue "id" "Email" "aut-email-1" None]
              (MkFormValue "id" "Email" "aut-email-1" None)
              (start [] None)
              eq_refl eq_refl (or_introl eq_refl) eq_refl (or_introl eq_refl)
              eq_refl eq_refl eq_refl)
    as (Hsetup & _ & _ & Hhas).
  split; [ exact Hsetup | ].
  split; [ reflexivity | ].
  split; [ reflexivity | ].
  exact (Hhas (start [ResetPasswordStepEmailVerification] None)
              (snd (VerifyEmail
                      (env_of [GotResponse enrollment_doc; GotResponse email_doc;
                               GotResponse email_challenge_doc] true)
                      (start [ResetPasswordStepEmailVerification] None)))
              eq_refl).
Defined.

Lemma setupNextSteps_twice_run :
  let env := env_of [] true in
  let once := setupNextSteps env question_doc (start [] None) in
  let twice := setupNextSteps env question_doc (snd once) in
  availableSteps (obj (snd once)) = [ResetPasswordStepAnswerSecurityQuestion]
  /\ sq (obj (snd once)) = Some pet_question
  /\ availableSteps (obj (snd twice)) = availableSteps (obj (snd once))
  /\ sq (obj (snd twice)) = sq (obj (snd once)).
Proof.
  cbv zeta.
  destruct (setupNextSteps_idempotent (env_of [] true) question_doc (start [] None) eq_refl)
    as (Hsteps & Hsq & _).
  split; [ reflexivity | ].
  split; [ reflexivity | ].
  split; [ exact Hsteps | exact Hsq ].
Defined.

(** C9. A flow started with [InitPasswordReset] reaches a state with the
    [AnswerSecurityQuestion] step and its cached question. After an answer
    that the provider answers with the question again,
    [AnswerSecurityQuestion] returns successfully with the
    [AnswerSecurityQuestion] step available and no cached question, although
    [SecurityQuestion()] is documented to return the question whenever that
    step is available; the next [AnswerSecurityQuestion] call passes its
    precondition and dereferences the nil question. *)
Theorem AnswerSecurityQuestion_leaves_step_without_question :
  let env := env_of [GotHandle "h"; GotResponse identify_doc;
                     GotResponse enrollment_doc; GotResponse question_doc;
                     GotResponse question_doc; GotResponse question_doc;
                     GotResponse question_doc] true in
  let init := InitPasswordReset env client
                {| Identifier := "user@example.com"; RememberMe := false |} world0 in
  exists r,
    fst init = Ok r
    /\ HasStep r ResetPasswordStepAnswerSecurityQuestion = true
    /\ GetSecurityQuestion r = Some pet_question
    /\ let run := AnswerSecurityQuestion env "rex" {| obj := r; world := snd init |} in
       fst run = Ok tt
       /\ HasStep (obj (snd run)) ResetPasswordStepAnswerSecurityQuestion = true
       /\ GetSecurityQuestion (obj (snd run)) = None
       /\ fst (AnswerSecurityQuestion env "rex" (snd run)) = Panic.
Proof.
  cbv zeta. eexists.
  split; [ vm_compute; reflexivity | ].
  repeat split; vm_compute; reflexivity.
Qed.

Lemma Authenticate_not_identity_first_run :
  let env := env_of [GotHandle "h"; GotResponse identify_doc] false in
  fst (Authenticate env client {| Username := "user@example.com"; Password := "pw" |} world0)
  = Ok None.
Proof.
  cbv zeta.
  erewrite (Authenticate_not_identity_first
              (env_of [GotHandle "h"; GotResponse identify_doc] false)
              client {| Username := "user@example.com"; Password := "pw" |} world0).
  - reflexivity.
  - cbv. reflexivity.
  - cbv. reflexivity.
  - reflexivity.
  - reflexivity.
Defined.

End Runs.

(* ===================================================================== *)
(** * Further properties of the code *)

(** ** Steps and their names *)

Lemma step_eqb_eq (a b : ResetPasswordStep) : step_eqb a b = true <-> a = b.
Proof.
  split.
  - destruct a, b; intro H; try reflexivity; discriminate H.
  - intros ->. unfold step_eqb. apply Nat.eqb_refl.
Qed.

Lemma has_step_In (l : list ResetPasswordStep) (s : ResetPasswordStep) :
  has_step l s = true <-> In s l.
Proof.
  induction l as [| x l IH]; cbn [has_step In].
  - split; [ discriminate | contradiction ].
  - destruct (step_eqb x s) eqn:Hx.
    + apply step_eqb_eq in Hx. split; auto.
    + rewrite IH. split; [ auto | ].
      intros [Heq | Hin]; [ | exact Hin ].
      apply step_eqb_eq in Heq. congruence.
Qed.

(** X1. [HasStep] answers true exactly for the steps that occur in the
    list of available steps, wherever and however often they occur. *)
Theorem HasStep_iff_listed (r : ResetPasswordResponse) (s : ResetPasswordStep) :
  HasStep r s = true <-> In s (AvailableSteps r).
Proof.
  unfold HasStep, AvailableSteps. apply has_step_In.
Qed.

(** X2. [String()] gives each of the seven declared steps its own text,
    none of which is "UNKNOWN", and gives "UNKNOWN" for every other integer
    value of the type: everything below 1, negative values included, and
    everything above 7. *)
Theorem step_names_distinct_and_known :
  (forall s, String_of_code (step_value s) = step_String s)
  /\ (forall a b, String_of_code (step_value a) = String_of_code (step_value b) -> a = b)
  /\ (forall n : Z, String_of_code n = "UNKNOWN" <-> (n < 1 \/ 7 < n)%Z).
Proof.
  split; [ | split ].
  - intros []; reflexivity.
  - intros a b H. destruct a, b; try reflexivity; vm_compute in H; discriminate H.
  - intro n.
    assert (Hcases : (n = 1 \/ n = 2 \/ n = 3 \/ n = 4 \/ n = 5 \/ n = 6 \/ n = 7
                      \/ (n < 1 \/ 7 < n))%Z) by lia.
    destruct Hcases as [-> | [-> | [-> | [-> | [-> | [-> | [-> | Hout]]]]]]];
      try (split; [ intro H; vm_compute in H; discriminate H | lia ]).
    split; [ intros _; exact Hout | intros _ ].
    assert (Hne : forall k : Z, (1 <= k <= 7)%Z -> Z.eqb k n = false)
      by (intros k Hk; apply Z.eqb_neq; lia).
    unfold String_of_code, resetStepText.
    cbn [find fst].
    rewrite !Hne by (vm_compute; split; discriminate).
    reflexivity.
Qed.

(** ** What a recomputation leaves behind *)

Ltac by_probes :=
  repeat match goal with
         | |- context [when ?b _] => destruct b; cbn [when]
         end.

Lemma next_steps_probes (resp : Response) :
  next_steps resp =
    (when (present (CancelResponse resp)) ResetPasswordStepCancel
     ++ when (is_ok (authenticatorOption resp "select-authenticator-authenticate" "Email"))
             ResetPasswordStepEmailVerification
     ++ when (is_ok (remediationOption resp "skip")) ResetPasswordStepSkip
     ++ when (present (question_of resp)) ResetPasswordStepAnswerSecurityQuestion
     ++ when (offers_new_password resp) ResetPasswordStepNewPassword)%list.
Proof.
  unfold next_steps, steps_before_question, add_new_password, offers_new_password.
  destruct (CancelResponse resp);
    destruct (authenticatorOption resp "select-authenticator-authenticate" "Email");
    destruct (remediationOption resp "skip");
    destruct (question_of resp);
    destruct (remediationOption resp "reset-authenticator") as [err | ro];
    try destruct (has_new_password ro); reflexivity.
Qed.

Lemma next_steps_question (resp : Response) :
  has_step (next_steps resp) ResetPasswordStepAnswerSecurityQuestion
  = present (question_of resp).
Proof.
  rewrite next_steps_probes.
  destruct (present (question_of resp)); by_probes; reflexivity.
Qed.

Lemma next_steps_never (resp : Response) :
  has_step (next_steps resp) ResetPasswordStepEmailConfirmation = false
  /\ has_step (next_steps resp) ResetPasswordStepSuccess = false.
Proof.
  rewrite next_steps_probes. by_probes; split; reflexivity.
Qed.

Lemma next_steps_NoDup (resp : Response) : NoDup (next_steps resp).
Proof.
  rewrite next_steps_probes.
  by_probes; cbn [when app];
    repeat (constructor; [ cbn [In]; intuition discriminate | ]);
    constructor.
Qed.

Section Recomputation.

Variable env : Env.

(** The two ways in which [setupNextSteps] returns normally. *)
Lemma setupNextSteps_Ok_cases (resp : Response) (st st' : RState) :
  setupNextSteps env resp st = (Ok tt, st') ->
  (LoginSuccess resp = true
   /\ exists t w',
        st' = set_availableSteps [ResetPasswordStepSuccess]
                (set_token (Some t) {| obj := obj st; world := w' |}))
  \/ (LoginSuccess resp = false
      /\ next_steps resp <> []
      /\ st' = set_availableSteps (next_steps resp) (cache_question resp st)).
Proof.
  intro H. destruct (LoginSuccess resp) eqn:Hs.
  - left. split; [ reflexivity | ].
    unfold setupNextSteps in H. rewrite Hs in H.
    cbv [bind gets] in H.
    destruct (idxContext (obj st)) as [ictx |]; [ | discriminate H ].
    destruct (SuccessResponse resp) as [so |]; [ | discriminate H ].
    unfold lift in H.
    destruct (ExchangeCode env so _ (world st)) as [[t | e |] w'];
      cbv [modify ret] in H; inversion H.
    exists t, w'. reflexivity.
  - right. split; [ reflexivity | ].
    rewrite (setupNextSteps_not_success env resp st Hs) in H.
    destruct (next_steps resp) as [| x l].
    + destruct (Messages resp); discriminate H.
    + inversion H. split; [ discriminate | reflexivity ].
Qed.

Lemma setupNextSteps_atomic (resp : Response) :
  failure_atomic (setupNextSteps env resp).
Proof.
  intros st Hf. destruct (LoginSuccess resp) eqn:Hs.
  - revert Hf. unfold setupNextSteps. rewrite Hs. cbv [bind gets].
    destruct (idxContext (obj st)) as [ictx |]; [ | reflexivity ].
    destruct (SuccessResponse resp) as [so |]; [ | reflexivity ].
    unfold lift.
    destruct (ExchangeCode env so _ (world st)) as [[t | e |] w'];
      cbv [modify ret]; cbn [fst snd failed obj]; [ discriminate | | ]; reflexivity.
  - revert Hf. rewrite (setupNextSteps_not_success env resp st Hs).
    destruct (next_steps resp) as [| x l].
    + destruct (Messages resp); reflexivity.
    + cbn [fst failed]. discriminate.
Qed.

Lemma setupNextSteps_Ok_invariant (resp : Response) (st st' : RState) :
  setupNextSteps env resp st = (Ok tt, st') -> question_invariant (obj st').
Proof.
  intro H. destruct (setupNextSteps_Ok_cases resp st st' H)
    as [(_ & t & w' & ->) | (_ & _ & ->)]; unfold question_invariant, HasStep.
  - cbn. discriminate.
  - cbn [set_availableSteps obj availableSteps sq].
    rewrite next_steps_question. unfold cache_question.
    destruct (question_of resp); cbn [present set_sq obj sq]; congruence.
Qed.

(** X3. When [setupNextSteps] does not return normally, the response
    object is exactly as before the call; and on a document without success
    marker the call exchanges nothing and consumes no randomness, whatever
    its outcome. *)
Theorem setupNextSteps_failure_leaves_object (resp : Response) (st : RState) :
  (failed (fst (setupNextSteps env resp st)) = true ->
   obj (snd (setupNextSteps env resp st)) = obj st)
  /\ (LoginSuccess resp = false ->
      world (snd (setupNextSteps env resp st)) = world st).
Proof.
  split; [ exact (setupNextSteps_atomic resp st) | ].
  intro Hs. rewrite (setupNextSteps_not_success env resp st Hs).
  destruct (next_steps resp) as [| x l];
    [ destruct (Messages resp) | unfold cache_question; destruct (question_of resp) ];
    reflexivity.
Qed.

(** X4. On a document without success marker, a [setupNextSteps] that
    returns normally stores exactly the steps of the five probes that fired,
    in the fixed order Cancel, EmailVerification, Skip,
    AnswerSecurityQuestion, NewPassword and each at most once; it keeps the
    token and the session context and exchanges nothing. *)
Theorem setupNextSteps_steps_of_probes (resp : Response) (st st' : RState) :
  LoginSuccess resp = false ->
  setupNextSteps env resp st = (Ok tt, st') ->
  availableSteps (obj st') =
    (when (present (CancelResponse resp)) ResetPasswordStepCancel
     ++ when (is_ok (authenticatorOption resp "select-authenticator-authenticate" "Email"))
             ResetPasswordStepEmailVerification
     ++ when (is_ok (remediationOption resp "skip")) ResetPasswordStepSkip
     ++ when (present (question_of resp)) ResetPasswordStepAnswerSecurityQuestion
     ++ when (offers_new_password resp) ResetPasswordStepNewPassword)%list
  /\ NoDup (availableSteps (obj st'))
  /\ token (obj st') = token (obj st)
  /\ idxContext (obj st') = idxContext (obj st)
  /\ world st' = world st.
Proof.
  intros Hs H.
  destruct (setupNextSteps_Ok_cases resp st st' H)
    as [(Hs' & _) | (_ & _ & ->)]; [ congruence | ].
  cbn [set_availableSteps obj availableSteps token idxContext world].
  split; [ apply next_steps_probes | ].
  split; [ apply next_steps_NoDup | ].
  unfold cache_question. destruct (question_of resp); repeat split.
Qed.

(** X5. Every [setupNextSteps] that returns normally leaves a state in
    which the doc comment of [SecurityQuestion()] holds: if the
    [AnswerSecurityQuestion] step is available, a question is cached; on a
    document without success marker the step is available exactly when the
    "challenge-authenticator" probe found a question, and that question is
    the cached one. *)
Theorem setupNextSteps_caches_the_offered_question (resp : Response) (st st' : RState) :
  setupNextSteps env resp st = (Ok tt, st') ->
  question_invariant (obj st')
  /\ (LoginSuccess resp = false ->
      forall question,
        question_of resp = Some question <->
        (HasStep (obj st') ResetPasswordStepAnswerSecurityQuestion = true
         /\ sq (obj st') = Some question)).
Proof.
  intro H. split; [ exact (setupNextSteps_Ok_invariant resp st st' H) | ].
  intros Hs question.
  destruct (setupNextSteps_Ok_cases resp st st' H)
    as [(Hs' & _) | (_ & _ & ->)]; [ congruence | ].
  unfold HasStep. cbn [set_availableSteps obj availableSteps sq].
  rewrite next_steps_question. unfold cache_question.
  destruct (question_of resp) as [q0 |]; cbn [present set_sq obj sq].
  - split.
    + intro Hq. inversion Hq; subst. split; reflexivity.
    + intros (_ & Hq). exact Hq.
  - split; [ discriminate | intros (Hq & _); discriminate Hq ].
Qed.

(** X6. After a [setupNextSteps] that returns normally the step list is
    not empty and never holds [EmailConfirmation]; [IsAuthenticated] holds
    exactly when the document carried a success marker, and then the step
    list is [Success] alone and a token is stored. *)
Theorem setupNextSteps_success_iff_marker (resp : Response) (st st' : RState) :
  setupNextSteps env resp st = (Ok tt, st') ->
  availableSteps (obj st') <> []
  /\ HasStep (obj st') ResetPasswordStepEmailConfirmation = false
  /\ (IsAuthenticated (obj st') = true <-> LoginSuccess resp = true)
  /\ (IsAuthenticated (obj st') = true ->
      availableSteps (obj st') = [ResetPasswordStepSuccess]
      /\ token (obj st') <> None).
Proof.
  intro H.
  destruct (setupNextSteps_Ok_cases resp st st' H)
    as [(Hs & t & w' & ->) | (Hs & Hne & ->)];
    unfold IsAuthenticated, HasStep;
    cbn [set_availableSteps set_token obj availableSteps token].
  - repeat split; try reflexivity; try discriminate. intros _; exact Hs.
  - destruct (next_steps_never resp) as [Hc Hsucc].
    rewrite Hc, Hsucc, Hs.
    repeat split; try assumption; try discriminate.
Qed.

End Recomputation.

(** ** The response object across a transition *)

Lemma keeps_object_gets (A : Type) (f : RState -> A) : keeps_object (gets f).
Proof. intro s. reflexivity. Qed.

Lemma keeps_object_lift (A : Type) (m : M World A) : keeps_object (lift m).
Proof. intro s. unfold lift. destruct (m (world s)). reflexivity. Qed.

Lemma keeps_object_of_result (A : Type) (r : error + A) : keeps_object (of_result r).
Proof. intro s. destruct r; reflexivity. Qed.

Lemma keeps_object_require_step (step : ResetPasswordStep) :
  keeps_object (require_step step).
Proof.
  intro s. unfold require_step, bind, gets.
  destruct (negb (HasStep (obj s) step)); reflexivity.
Qed.

Lemma keeps_object_require_enrollment (resp : Response) :
  keeps_object (require_enrollment resp).
Proof.
  intro s. unfold require_enrollment.
  destruct (CurrentAuthenticatorEnrollment resp); [ reflexivity | ].
  destruct (Messages resp); reflexivity.
Qed.

Lemma failure_atomic_bind (A B : Type) (m : M RState A) (k : A -> M RState B) :
  keeps_object m -> (forall a, failure_atomic (k a)) -> failure_atomic (bind m k).
Proof.
  intros Hm Hk s. unfold bind. specialize (Hm s).
  destruct (m s) as [[a | e |] s1]; cbn [fst snd] in *.
  - intro Hf. rewrite (Hk a s1 Hf). exact Hm.
  - intros _. exact Hm.
  - intros _. exact Hm.
Qed.

Lemma returns_with_bind (S A B : Type) (P : S -> Prop) (m : M S A) (k : A -> M S B) :
  (forall a, returns_with P (k a)) -> returns_with P (bind m k).
Proof.
  intros Hk s b s' H.
  apply bind_Ok_inv in H. destruct H as (a & s1 & _ & H).
  exact (Hk a s1 b s' H).
Qed.

Lemma has_step_app_other (l : list ResetPasswordStep) (x s : ResetPasswordStep) :
  x <> s -> has_step (l ++ [x])%list s = has_step l s.
Proof.
  intro Hx. induction l as [| y l IH]; cbn [app has_step].
  - destruct (step_eqb x s) eqn:E; [ | reflexivity ].
    apply step_eqb_eq in E. contradiction.
  - rewrite IH. reflexivity.
Qed.

Ltac atomic_chain :=
  repeat first
    [ apply failure_atomic_bind;
      [ first [ apply keeps_object_require_step
              | apply keeps_object_gets
              | apply keeps_object_lift
              | apply keeps_object_require_enrollment
              | apply keeps_object_of_result ]
      | intro ]
    | lazymatch goal with
      | |- failure_atomic (let (_, _) := ?p in _) => destruct p
      end ].

Section Transitions.

Variable env : Env.

Lemma setupNextSteps_returns_invariant (resp : Response) :
  returns_with (fun s => question_invariant (obj s)) (setupNextSteps env resp).
Proof.
  intros s [] s' H. exact (setupNextSteps_Ok_invariant env resp s s' H).
Qed.

(** The end of [VerifyEmail]: the recomputation, then the append. *)
Lemma VerifyEmail_tail_atomic (resp : Response) :
  failure_atomic
    (bind (setupNextSteps env resp)
          (fun _ =>
             bind (gets obj)
                  (fun r =>
                     bind (modify (set_availableSteps
                                     (availableSteps r
                                      ++ [ResetPasswordStepEmailConfirmation])%list))
                          (fun _ => ret tt)))).
Proof.
  intros s.
  pose proof (setupNextSteps_atomic env resp s) as Ha.
  cbv [bind gets modify ret].
  destruct (setupNextSteps env resp s) as [[[] | e |] s1]; cbn [fst snd failed] in *.
  - discriminate.
  - intros _. apply Ha. reflexivity.
  - intros _. apply Ha. reflexivity.
Qed.

Lemma VerifyEmail_tail_invariant (resp : Response) :
  returns_with (fun s => question_invariant (obj s))
    (bind (setupNextSteps env resp)
          (fun _ =>
             bind (gets obj)
                  (fun r =>
                     bind (modify (set_availableSteps
                                     (availableSteps r
                                      ++ [ResetPasswordStepEmailConfirmation])%list))
                          (fun _ => ret tt)))).
Proof.
  intros s a s' H.
  apply bind_Ok_inv in H. destruct H as ([] & s1 & Hsetup & H).
  cbv [bind gets modify ret] in H. inversion H; subst s'.
  pose proof (setupNextSteps_Ok_invariant env resp s s1 Hsetup) as Hinv.
  unfold question_invariant, HasStep in *.
  cbn [set_availableSteps obj availableSteps sq].
  rewrite has_step_app_other by discriminate. exact Hinv.
Qed.

Lemma transition_atomic (t : Transition) :
  required_step t <> ResetPasswordStepAnswerSecurityQuestion ->
  failure_atomic (run_transition env t).
Proof.
  destruct t; cbn [required_step run_transition]; intro Hneq;
    [ unfold VerifyEmail | unfold ConfirmEmail, confirmWithCode
    | contradiction | unfold SetNewPassword | unfold Cancel ];
    atomic_chain;
    first [ apply VerifyEmail_tail_atomic | apply setupNextSteps_atomic ].
Qed.

Lemma transition_returns_invariant (t : Transition) :
  required_step t <> ResetPasswordStepAnswerSecurityQuestion ->
  returns_with (fun s => question_invariant (obj s)) (run_transition env t).
Proof.
  destruct t; cbn [required_step run_transition]; intro Hneq;
    [ unfold VerifyEmail | unfold ConfirmEmail, confirmWithCode
    | contradiction | unfold SetNewPassword | unfold Cancel ];
    repeat first
      [ apply VerifyEmail_tail_invariant
      | apply setupNextSteps_returns_invariant
      | apply returns_with_bind; intro
      | lazymatch goal with
        | |- returns_with _ (let (_, _) := ?p in _) => destruct p
        end ].
Qed.

(** X7. [VerifyEmail], [ConfirmEmail], [SetNewPassword] and [Cancel] are
    all-or-nothing on the response object: when the call returns an error or
    panics, at whatever point, the available steps, the cached question, the
    token and the session context are exactly as before the call. *)
Theorem failed_transition_leaves_object (t : Transition) (st : RState) :
  required_step t <> ResetPasswordStepAnswerSecurityQuestion ->
  failed (fst (run_transition env t st)) = true ->
  obj (snd (run_transition env t st)) = obj st
  /\ AvailableSteps (obj (snd (run_transition env t st))) = AvailableSteps (obj st).
Proof.
  intros Hneq Hf.
  pose proof (transition_atomic t Hneq st Hf) as H.
  split; [ exact H | rewrite H; reflexivity ].
Qed.

(** X8. [VerifyEmail], [ConfirmEmail], [SetNewPassword] and [Cancel]
    preserve what the doc comment of [SecurityQuestion()] promises: if
    before the call a question is cached whenever the
    [AnswerSecurityQuestion] step is available, the same holds after the
    call, whether it succeeds, fails or panics. *)
Theorem transition_preserves_question_invariant (t : Transition) (st : RState) :
  required_step t <> ResetPasswordStepAnswerSecurityQuestion ->
  question_invariant (obj st) ->
  question_invariant (obj (snd (run_transition env t st))).
Proof.
  intros Hneq Hinv.
  destruct (run_transition env t st) as [o st'] eqn:Hrun.
  destruct o as [[] | e |]; cbn [snd].
  - exact (transition_returns_invariant t Hneq st tt st' Hrun).
  - pose proof (transition_atomic t Hneq st) as Ha.
    rewrite Hrun in Ha. cbn [fst snd failed] in Ha. rewrite (Ha eq_refl). exact Hinv.
  - pose proof (transition_atomic t Hneq st) as Ha.
    rewrite Hrun in Ha. cbn [fst snd failed] in Ha. rewrite (Ha eq_refl). exact Hinv.
Qed.

End Transitions.

(** ** How many exchanges an operation makes *)

Lemma sends_nothing (S A : Type) (proj : S -> World) (n : nat) (m : M S A) (s : S) :
  calls (proj (snd (m s))) = calls (proj s) -> sends_at_most proj n m s.
Proof.
  intro H. exists []. rewrite H, app_nil_r. split; [ reflexivity | cbn; lia ].
Qed.

Lemma sends_le (S A : Type) (proj : S -> World) (n n' : nat) (m : M S A) (s : S) :
  sends_at_most proj n m s -> n <= n' -> sends_at_most proj n' m s.
Proof.
  intros (l & Hl & Hn) Hle. exists l. split; [ exact Hl | lia ].
Qed.

Lemma sends_bind (S A B : Type) (proj : S -> World) (n total : nat)
      (m : M S A) (k : A -> M S B) (s : S) :
  sends_at_most proj n m s ->
  n <= total ->
  (forall a s1, m s = (Ok a, s1) -> sends_at_most proj (total - n) (k a) s1) ->
  sends_at_most proj total (bind m k) s.
Proof.
  intros (l & Hl & Hn) Hle Hk. unfold sends_at_most, bind in *.
  destruct (m s) as [[a | e |] s1] eqn:Hm; cbn [snd] in *.
  - destruct (Hk a s1 eq_refl) as (l' & Hl' & Hn').
    exists (l ++ l')%list. rewrite Hl', Hl, app_assoc, length_app.
    split; [ reflexivity | lia ].
  - exists l. split; [ exact Hl | lia ].
  - exists l. split; [ exact Hl | lia ].
Qed.

Arguments sends_bind {S A B proj} n total {m k s}.

Lemma sends_wrap_err (S A : Type) (proj : S -> World) (n : nat) (format : string)
      (m : M S A) (s : S) :
  sends_at_most proj n m s -> sends_at_most proj n (wrap_err format m) s.
Proof.
  unfold sends_at_most, wrap_err. destruct (m s) as [[a | e |] s1]; auto.
Qed.

Lemma sends_of_result (S A : Type) (proj : S -> World) (n : nat) (r : error + A) (s : S) :
  sends_at_most proj n (of_result r) s.
Proof. apply sends_nothing. destruct r; reflexivity. Qed.

Lemma sends_lift (A : Type) (n : nat) (m : M World A) (s : RState) :
  sends_at_most (fun w => w) n m (world s) -> sends_at_most world n (lift m) s.
Proof.
  unfold sends_at_most, lift. destruct (m (world s)) as [o w]. cbn [snd world]. auto.
Qed.

Lemma sends_with_defer (A : Type) (n : nat) (cleanup : RState -> RState)
      (m : M RState A) (s : RState) :
  (forall x, world (cleanup x) = world x) ->
  sends_at_most world n m s -> sends_at_most world n (with_defer cleanup m) s.
Proof.
  unfold sends_at_most, with_defer. intros Hc. destruct (m s) as [o s1].
  cbn [snd]. rewrite Hc. auto.
Qed.

Lemma sends_on_new_object (A : Type) (n : nat) (r : ResetPasswordResponse)
      (m : M RState A) (w : World) :
  sends_at_most world n m {| obj := r; world := w |} ->
  sends_at_most (fun w => w) n (on_new_object r m) w.
Proof.
  unfold sends_at_most, on_new_object.
  destruct (m {| obj := r; world := w |}) as [[a | e |] s1]; cbn [snd world]; auto.
Qed.

Section Exchanges.

Variable env : Env.

Lemma sends_exchange (c : Call) (w : World) :
  sends_at_most (fun w => w) 1 (exchange env c) w.
Proof. exists [c]. split; [ reflexivity | cbn; lia ]. Qed.

Lemma sends_decode (A : Type) (n : nat) (pick : Reply -> option A) (reply : Reply)
      (w : World) :
  sends_at_most (fun w => w) n (decode pick reply) w.
Proof.
  apply sends_nothing. unfold decode.
  destruct reply; try reflexivity;
    match goal with |- context [pick ?x] => destruct (pick x) end; reflexivity.
Qed.

Lemma sends_crand_Read (n k : nat) (w : World) :
  sends_at_most (fun w => w) n (crand_Read env k) w.
Proof.
  apply sends_nothing. unfold crand_Read.
  destruct (crand_err env (rand_pos w)); reflexivity.
Qed.

Lemma sends_new_request (n : nat) (format : string) (c : Call) (w : World) :
  sends_at_most (fun w => w) n (new_request env format c) w.
Proof.
  apply sends_nothing. unfold new_request.
  destruct (http_NewRequest env (calls w) c); reflexivity.
Qed.

Lemma sends_marshal_handle (n : nat) (h : option InteractionHandle) (w : World) :
  sends_at_most (fun w => w) n (marshal_handle env h) w.
Proof.
  apply sends_nothing. unfold marshal_handle.
  destruct (json_Marshal_handle env h); reflexivity.
Qed.

Lemma sends_request_and_exchange (A : Type) (pick : Reply -> option A)
      (format : string) (c : Call) (w : World) :
  sends_at_most (fun w => w) 1
    (bind (new_request env format c)
          (fun _ => bind (exchange env c) (decode pick))) w.
Proof.
  apply (sends_bind 0 1); [ apply sends_new_request | lia | ].
  intros [] w1 _.
  apply (sends_bind 1 1); [ apply sends_exchange | lia | ].
  intros reply w2 _. apply sends_decode.
Qed.

Lemma sends_one_exchange (A : Type) (pick : Reply -> option A) (c : Call) (w : World) :
  sends_at_most (fun w => w) 1 (bind (exchange env c) (decode pick)) w.
Proof.
  apply (sends_bind 1 1); [ apply sends_exchange | lia | ].
  intros reply w1 _. apply sends_decode.
Qed.

Lemma sends_Proceed (ro : RemediationOption) (payload : string) (w : World) :
  sends_at_most (fun w => w) 1 (Proceed env ro payload) w.
Proof. apply sends_one_exchange. Qed.

Lemma sends_ExchangeCode (so : SuccessOption) (payload : string) (w : World) :
  sends_at_most (fun w => w) 1 (ExchangeCode env so payload) w.
Proof. apply sends_one_exchange. Qed.

Lemma sends_Cancel_document (resp : Response) (w : World) :
  sends_at_most (fun w => w) 1 (Cancel_document env resp) w.
Proof.
  unfold Cancel_document. destruct (CancelResponse resp).
  - apply sends_one_exchange.
  - apply sends_nothing. reflexivity.
Qed.

Lemma sends_Interact (c : Client) (w : World) :
  sends_at_most (fun w => w) 1 (Interact env c) w.
Proof.
  unfold Interact, createCodeVerifier, createState.
  apply (sends_bind 0 1); [ | lia | intros verifier w1 _ ].
  { apply (sends_bind 0 0); [ apply sends_wrap_err, sends_crand_Read | lia | ].
    intros; apply sends_nothing; reflexivity. }
  apply (sends_bind 0 1); [ | lia | intros state_value w2 _ ].
  { apply (sends_bind 0 0); [ apply sends_wrap_err, sends_crand_Read | lia | ].
    intros; apply sends_nothing; reflexivity. }
  apply (sends_bind 0 1); [ apply sends_new_request | lia | intros [] w3 _ ].
  apply (sends_bind 1 1); [ apply sends_exchange | lia | intros reply w4 _ ].
  apply (sends_bind 0 0); [ apply sends_decode | lia | ].
  intros; apply sends_nothing; reflexivity.
Qed.

(** What [Introspect] may exchange: the introspection, and before it the
    interaction when no context is given. *)
Lemma sends_Introspect (c : Client) (idxContext : option Context) (w : World) :
  sends_at_most (fun w => w)
                (match idxContext with Some _ => 1 | None => 2 end)
                (Introspect env c idxContext) w.
Proof.
  unfold Introspect.
  eapply (sends_bind 0); [ apply sends_wrap_err, sends_of_result | lia | ].
  intros domain w1 _. rewrite Nat.sub_0_r.
  destruct idxContext as [ictx |].
  - apply (sends_bind 0 1); [ apply sends_nothing; reflexivity | lia | ].
    intros ictx' w2 _.
    apply (sends_bind 0 1); [ apply sends_marshal_handle | lia | ].
    intros [] w3 _. apply sends_request_and_exchange.
  - apply (sends_bind 1 2); [ apply sends_wrap_err, sends_Interact | lia | ].
    intros ictx' w2 _.
    apply (sends_bind 0 1); [ apply sends_marshal_handle | lia | ].
    intros [] w3 _. apply sends_request_and_exchange.
Qed.

Lemma sends_setupNextSteps (resp : Response) (st : RState) :
  sends_at_most world 1 (setupNextSteps env resp) st.
Proof.
  destruct (LoginSuccess resp) eqn:Hs.
  - unfold setupNextSteps. rewrite Hs.
    apply (sends_bind 0 1); [ apply sends_nothing; reflexivity | lia | ].
    intros r s1 _.
    destruct (idxContext r); [ | apply sends_nothing; reflexivity ].
    destruct (SuccessResponse resp); [ | apply sends_nothing; reflexivity ].
    apply (sends_bind 1 1); [ apply sends_lift, sends_ExchangeCode | lia | ].
    intros t s2 _. apply sends_nothing. reflexivity.
  - apply sends_nothing.
    rewrite (setupNextSteps_not_success env resp st Hs).
    destruct (next_steps resp);
      [ destruct (Messages resp) | unfold cache_question; destruct (question_of resp) ];
      reflexivity.
Qed.

Lemma sends_require_step (n : nat) (step : ResetPasswordStep) (st : RState) :
  sends_at_most world n (require_step step) st.
Proof.
  apply sends_nothing. unfold require_step, bind, gets.
  destruct (negb (HasStep (obj st) step)); reflexivity.
Qed.

Lemma sends_require_enrollment (S : Type) (proj : S -> World) (n : nat)
      (resp : Response) (s : S) :
  sends_at_most proj n (require_enrollment resp) s.
Proof.
  apply sends_nothing. unfold require_enrollment.
  destruct (CurrentAuthenticatorEnrollment resp); [ reflexivity | ].
  destruct (Messages resp); reflexivity.
Qed.

(** The guard and the read of the receiver with which every transition
    starts: what follows runs on the object as it was at the call. *)
Lemma sends_guarded (B : Type) (n : nat) (step : ResetPasswordStep)
      (k : ResetPasswordResponse -> M RState B) (st : RState) :
  sends_at_most world n (k (obj st)) st ->
  sends_at_most world n (bind (require_step step) (fun _ => bind (gets obj) k)) st.
Proof.
  intro H. unfold sends_at_most in *.
  cbv [bind require_step gets fail ret].
  destruct (negb (HasStep (obj st) step)); cbn [snd].
  - exists []. rewrite app_nil_r. split; [ reflexivity | cbn; lia ].
  - exact H.
Qed.

Lemma sends_submit_then_setup (n : nat) (ro : RemediationOption) (payload : string)
      (st : RState) :
  2 <= n ->
  sends_at_most world n
    (bind (lift (Proceed env ro payload)) (fun resp => setupNextSteps env resp)) st.
Proof.
  intro Hn.
  apply (sends_bind 1 n); [ apply sends_lift, sends_Proceed | lia | ].
  intros resp s1 _. apply (sends_le _ _ _ 1); [ apply sends_setupNextSteps | lia ].
Qed.

(** X9. A transition only appends to the history of exchanges, and appends
    little: [VerifyEmail] at most four exchanges and each of [ConfirmEmail],
    [AnswerSecurityQuestion], [SetNewPassword] and [Cancel] at most three
    when the response object holds a session context, and one more (the
    interaction that [Introspect] then makes first) when it holds none. *)
Theorem transition_exchange_budget (t : Transition) (st : RState) :
  sends_at_most world
    (match t with TVerifyEmail => 4 | _ => 3 end
     + match idxContext (obj st) with Some _ => 0 | None => 1 end)
    (run_transition env t) st.
Proof.
  set (extra := match idxContext (obj st) with Some _ => 0 | None => 1 end).
  assert (Hintro :
            sends_at_most world (1 + extra)
              (lift (Introspect env (idx env) (idxContext (obj st)))) st).
  { apply sends_lift.
    apply (sends_le _ _ _ _ _ _ _ (sends_Introspect (idx env) (idxContext (obj st)) (world st))).
    subst extra. destruct (idxContext (obj st)); lia. }
  destruct t; cbn [run_transition].
  - unfold VerifyEmail. apply sends_guarded.
    apply (sends_bind (1 + extra)); [ exact Hintro | lia | ].
    intros resp s1 _. replace (4 + extra - (1 + extra)) with 3 by lia.
    apply (sends_bind 0 3); [ apply sends_require_enrollment | lia | ].
    intros en s2 _.
    apply (sends_bind 1 3); [ apply sends_lift, sends_Proceed | lia | ].
    intros resp' s3 _.
    apply (sends_bind 0 2); [ apply sends_of_result | lia | ].
    intros [ro authID] s4 _.
    apply (sends_bind 1 2); [ apply sends_lift, sends_Proceed | lia | ].
    intros resp'' s5 _.
    apply (sends_bind 1 1); [ apply sends_setupNextSteps | lia | ].
    intros; apply sends_nothing; reflexivity.
  - unfold ConfirmEmail, confirmWithCode.
    apply (sends_bind 0); [ apply sends_require_step | lia | ].
    intros [] s0 Hs0. rewrite Nat.sub_0_r.
    assert (s0 = st) as ->.
    { revert Hs0. unfold require_step, bind, gets.
      destruct (negb (HasStep (obj st) _)); intro H; inversion H; reflexivity. }
    apply (sends_bind 0); [ apply sends_nothing; reflexivity | lia | ].
    intros r s1 Hs1. inversion Hs1; subst. rewrite Nat.sub_0_r.
    apply (sends_bind (1 + extra)); [ exact Hintro | lia | ].
    intros resp s2 _. replace (3 + extra - (1 + extra)) with 2 by lia.
    apply (sends_bind 0 2); [ apply sends_of_result | lia | ].
    intros ro s3 _. apply sends_submit_then_setup. lia.
  - unfold AnswerSecurityQuestion. apply sends_guarded.
    apply (sends_bind (1 + extra)); [ exact Hintro | lia | ].
    intros resp s1 _. replace (3 + extra - (1 + extra)) with 2 by lia.
    apply (sends_bind 0 2); [ apply sends_of_result | lia | ].
    intros ro s2 _.
    apply (sends_bind 0 2); [ apply sends_nothing; reflexivity | lia | ].
    intros r s3 _.
    destruct (sq r); [ | apply sends_nothing; reflexivity ].
    apply (sends_bind 1 2); [ apply sends_lift, sends_Proceed | lia | ].
    intros resp' s4 _.
    apply sends_with_defer; [ reflexivity | apply sends_setupNextSteps ].
  - unfold SetNewPassword. apply sends_guarded.
    apply (sends_bind (1 + extra)); [ exact Hintro | lia | ].
    intros resp s1 _. replace (3 + extra - (1 + extra)) with 2 by lia.
    apply (sends_bind 0 2); [ apply sends_of_result | lia | ].
    intros ro s2 _. apply sends_submit_then_setup. lia.
  - unfold Cancel. apply sends_guarded.
    apply (sends_bind (1 + extra)); [ exact Hintro | lia | ].
    intros resp s1 _. replace (3 + extra - (1 + extra)) with 2 by lia.
    apply (sends_bind 1 2); [ apply sends_lift, sends_Cancel_document | lia | ].
    intros resp' s2 _. apply sends_setupNextSteps.
Qed.

Lemma sends_handleIdentityFirst (c : Client) (options : AuthenticationOptions)
      (ro : RemediationOption) (w : World) :
  sends_at_most (fun w => w) 2 (handleIdentityFirst env c options ro) w.
Proof.
  unfold handleIdentityFirst.
  apply (sends_bind 1 2); [ apply sends_Proceed | lia | ].
  intros response w1 _.
  apply (sends_bind 0 1); [ apply sends_of_result | lia | ].
  intros ro' w2 _. apply sends_Proceed.
Qed.

Lemma sends_handleRemediation (c : Client) (idxContext : option Context)
      (response : Response) (w : World) :
  sends_at_most (fun w => w) 1 (handleRemediation env c idxContext response) w.
Proof.
  unfold handleRemediation.
  destruct (LoginSuccess response); [ | apply sends_nothing; reflexivity ].
  destruct idxContext; [ | apply sends_nothing; reflexivity ].
  destruct (SuccessResponse response); [ | apply sends_nothing; reflexivity ].
  apply (sends_bind 1 1); [ apply sends_ExchangeCode | lia | ].
  intros; apply sends_nothing; reflexivity.
Qed.

(** X10. The two entry points only append to the history of exchanges:
    [Authenticate] makes at most five exchanges (interaction, introspection,
    the two submissions, the token exchange) and so does
    [InitPasswordReset] (interaction, introspection, the identifier, the
    recovery, the token exchange). *)
Theorem entry_points_exchange_budget
        (c : Client) (options : AuthenticationOptions) (ir : IdentifyRequest)
        (w : World) :
  sends_at_most (fun w => w) 5 (Authenticate env c options) w
  /\ sends_at_most (fun w => w) 5 (InitPasswordReset env c ir) w.
Proof.
  split.
  - unfold Authenticate.
    apply (sends_bind 1 5); [ apply sends_Interact | lia | ].
    intros ictx w1 _.
    apply (sends_bind 1 4); [ apply (sends_Introspect c (Some ictx)) | lia | ].
    intros response w2 _.
    apply (sends_bind 0 3); [ apply sends_of_result | lia | ].
    intros ro w3 _.
    apply (sends_bind 0 3); [ apply sends_of_result | lia | ].
    intros [|] w4 _; [ | apply sends_nothing; reflexivity ].
    apply (sends_bind 2 3); [ apply sends_handleIdentityFirst | lia | ].
    intros response' w5 _. apply sends_handleRemediation.
  - unfold InitPasswordReset.
    apply (sends_bind 1 5); [ apply sends_Interact | lia | ].
    intros ictx w1 _.
    apply (sends_bind 1 4); [ apply (sends_Introspect c (Some ictx)) | lia | ].
    intros resp w2 _.
    apply (sends_bind 0 3); [ apply sends_of_result | lia | ].
    intros ro w3 _.
    apply (sends_bind 1 3); [ apply sends_Proceed | lia | ].
    intros resp' w4 _.
    apply (sends_bind 0 2); [ apply sends_require_enrollment | lia | ].
    intros en w5 _.
    apply (sends_bind 1 2); [ apply sends_Proceed | lia | ].
    intros resp'' w6 _.
    apply sends_on_new_object. apply sends_setupNextSteps.
Qed.

End Exchanges.

(** ** Introspection *)

Section Introspection.

Variable env : Env.

(** X11. With a session context, [Introspect] returns the wrapped error
    and makes no exchange when the issuer does not parse, when the
    interaction handle cannot be encoded or when the request cannot be
    created. Otherwise it makes exactly one exchange, posting the context's
    interaction handle to [scheme://host/idp/idx/introspect] (the path of
    the issuer is not part of the endpoint), consumes no randomness, and
    returns a document exactly when the transport delivers one. *)
Theorem Introspect_with_context (c : Client) (ictx : Context) (w : World) :
  let run := Introspect env c (Some ictx) w in
  match url_Parse env (Issuer c) with
  | inl e => run = (Err (ErrorfWrap "could not parse issuer: %w" e), w)
  | inr domain =>
      let call :=
        CallIntrospect (Scheme domain ++ "://" ++ Host domain ++ "/idp/idx/introspect")
                       (GetInteractionHandle ictx) in
      match json_Marshal_handle env (GetInteractionHandle ictx),
            http_NewRequest env (calls w) call with
      | Some e, _ =>
          run = (Err (ErrorfWrap "failed to marshal interaction handle: %w" e), w)
      | None, Some e =>
          run = (Err (ErrorfWrap "failed to create introspect http request: %w" e), w)
      | None, None =>
          calls (snd run) = (calls w ++ [call])%list
          /\ rand_pos (snd run) = rand_pos w
          /\ forall resp, fst run = Ok resp <-> Do env (calls w) call = GotResponse resp
      end
  end.
Proof.
  intro run. subst run. unfold Introspect.
  destruct (url_Parse env (Issuer c)) as [e | domain]; [ reflexivity | ].
  cbv zeta.
  cbv [bind wrap_err of_result ret fail marshal_handle new_request exchange decode add_call].
  destruct (json_Marshal_handle env (GetInteractionHandle ictx)) as [e |];
    [ reflexivity | ].
  destruct (http_NewRequest env (calls w) _) as [e |]; [ reflexivity | ].
  destruct (Do env (calls w) _) as [e | e | msgs | h | d | t] eqn:Hdo;
    cbn [fst snd calls rand_pos pick_response fail ret];
    repeat split; try discriminate; try congruence.
Qed.

(** X12. Without a session context, [Introspect] bootstraps one: once the
    issuer parses, it behaves as [Interact] followed by [Introspect] with the
    context [Interact] returned; when [Interact] fails, its error is returned
    wrapped and no introspection is made. *)
Theorem Introspect_without_context_interacts_first (c : Client) (w : World)
        (domain : URL) :
  url_Parse env (Issuer c) = inr domain ->
  (forall ictx w1, Interact env c w = (Ok ictx, w1) ->
                   Introspect env c None w = Introspect env c (Some ictx) w1)
  /\ (forall e w1, Interact env c w = (Err e, w1) ->
        Introspect env c None w =
          (Err (ErrorfWrap "could not retrieve an interaction handle for you: %w" e), w1)).
Proof.
  intro Hd. unfold Introspect. rewrite Hd. split.
  - intros ictx w1 Hi. cbv [bind wrap_err of_result ret]. rewrite Hi. reflexivity.
  - intros e w1 Hi. cbv [bind wrap_err of_result ret]. rewrite Hi. reflexivity.
Qed.

End Introspection.

(** ** Authentication *)

Section Authentication.

Variable env : Env.

Lemma handleRemediation_result (c : Client) (idxContext : option Context)
      (response : Response) (w : World) (ar : AuthenticationResponse) (w' : World) :
  handleRemediation env c idxContext response w = (Ok (Some ar), w') ->
  ar_idxContext ar = idxContext
  /\ ((authenticationStatus ar = AuthStatusSuccess /\ ar_token ar <> None
       /\ LoginSuccess response = true)
      \/ (authenticationStatus ar = EmptyString /\ ar_token ar = None
          /\ LoginSuccess response = false)).
Proof.
  unfold handleRemediation. destruct (LoginSuccess response).
  - destruct idxContext as [ictx |]; [ | discriminate ].
    destruct (SuccessResponse response) as [so |]; [ | discriminate ].
    intro H. apply bind_Ok_inv in H. destruct H as (t & w1 & _ & H).
    cbv [ret] in H. inversion H; subst. cbn.
    split; [ reflexivity | left; repeat split; discriminate ].
  - cbv [ret]. intro H. inversion H; subst. cbn.
    split; [ reflexivity | right; repeat split ].
Qed.

Lemma Interact_Ok_verifier (c : Client) (w : World) (ictx : Context) (w1 : World) :
  Interact env c w = (Ok ictx, w1) ->
  codeVerifier ictx = Base64.EncodeToString (map (entropy env) (seq (rand_pos w) 86)).
Proof.
  unfold Interact, createCodeVerifier, createState.
  cbv [bind wrap_err crand_Read ret new_request exchange].
  destruct (crand_err env (rand_pos w)); [ discriminate | ].
  cbn [rand_pos calls].
  destruct (crand_err env (rand_pos w + 86)); [ discriminate | ].
  match goal with
  | |- context [http_NewRequest env ?h ?call] =>
      destruct (http_NewRequest env h call); [ discriminate | ]
  end.
  destruct (decode pick_handle _ _) as [[h | e |] w6]; intro Hi;
    inversion Hi; reflexivity.
Qed.

(** X13. On a document with a success marker, [handleRemediation] makes
    exactly one exchange, the token exchange, whose body is built from the
    secret of the client it was called on and the codeVerifier of the given
    context. With a token in reply it returns the context, the token and the
    status "SUCCESS"; with any other reply it returns an error and no
    response. *)
Theorem handleRemediation_success_marker
        (c : Client) (ictx : Context) (response : Response) (so : SuccessOption)
        (w : World) :
  SuccessResponse response = Some so ->
  let call := CallExchangeCode so (exchangeForm (ClientSecret c) (CodeVerifier ictx)) in
  let run := handleRemediation env c (Some ictx) response w in
  snd run = add_call call w
  /\ (forall t, Do env (calls w) call = GotToken t ->
        fst run = Ok (Some {| ar_idxContext := Some ictx; ar_token := Some t;
                              authenticationStatus := AuthStatusSuccess |}))
  /\ ((forall t, Do env (calls w) call <> GotToken t) -> exists e, fst run = Err e).
Proof.
  intros Hso call run. subst run. unfold handleRemediation, LoginSuccess.
  rewrite Hso. cbv [bind ExchangeCode exchange decode]. fold call.
  destruct (Do env (calls w) call) as [e | e | msgs | h | d | t] eqn:Hdo;
    cbn [fst snd pick_token fail ret];
    (split; [ reflexivity | split ]);
    try (intros t' Ht'; discriminate Ht');
    try (intros _; eexists; reflexivity).
  - intros t' Ht'. inversion Ht'. reflexivity.
  - intros Hnot. exfalso. exact (Hnot t eq_refl).
Qed.

(** X14. [handleIdentityFirst] first submits the identifier alone. The
    password is submitted only to the "challenge-authenticator" option of the
    document that answers the identifier: when that submission fails or the
    document has no such option, the call returns the error after this one
    exchange and the password is never sent. *)
Theorem handleIdentityFirst_sends_password_only_to_challenge
        (c : Client) (options : AuthenticationOptions) (ro : RemediationOption)
        (w : World) :
  let first := CallProceed ro (identifier_body (Username options)) in
  let run := handleIdentityFirst env c options ro w in
  (exists response ro',
      Do env (calls w) first = GotResponse response
      /\ getRemediationOption response "challenge-authenticator" = inr ro'
      /\ calls (snd run) =
           (calls w ++ [first; CallProceed ro' (passcode_body (Password options))])%list)
  \/ ((exists e, fst run = Err e)
      /\ calls (snd run) = (calls w ++ [first])%list
      /\ (forall response,
            Do env (calls w) first = GotResponse response ->
            exists e, getRemediationOption response "challenge-authenticator" = inl e)).
Proof.
  intros first run. subst run. unfold handleIdentityFirst.
  cbv [bind Proceed exchange decode]. fold first.
  destruct (Do env (calls w) first) as [e | e | msgs | h | response | t] eqn:Hdo;
    cbn [pick_response fail ret];
    try (right; cbn [fst snd add_call calls];
         split; [ eexists; reflexivity | split; [ reflexivity | ] ];
         intros response Hr; discriminate Hr).
  destruct (getRemediationOption response "challenge-authenticator") as [e | ro'] eqn:Hro;
    cbv [of_result fail ret].
  - right. cbn [fst snd add_call calls].
    split; [ eexists; reflexivity | split; [ reflexivity | ] ].
    intros response' Hr. inversion Hr; subst. eexists; exact Hro.
  - left. exists response, ro'. split; [ reflexivity | split; [ exact Hro | ] ].
    cbn [add_call calls rand_pos].
    destruct (Do env _ (CallProceed ro' _));
      cbn [snd calls add_call pick_response];
      rewrite <- app_assoc; reflexivity.
Qed.

(** X15. A response returned by [Authenticate] carries the session context
    that its [Interact] call created, with the codeVerifier drawn from the
    random source at the call; it carries a token exactly when its status is
    "SUCCESS", and its status is never "PASSWORD_EXPIRED". *)
Theorem Authenticate_response_shape
        (c : Client) (options : AuthenticationOptions) (w : World)
        (ar : AuthenticationResponse) (w' : World) :
  Authenticate env c options w = (Ok (Some ar), w') ->
  (exists ictx w1,
      Interact env c w = (Ok ictx, w1) /\ ar_idxContext ar = Some ictx
      /\ codeVerifier ictx =
           Base64.EncodeToString (map (entropy env) (seq (rand_pos w) 86)))
  /\ (ar_token ar <> None <-> authenticationStatus ar = AuthStatusSuccess)
  /\ authenticationStatus ar <> AuthStatusPasswordExpired.
Proof.
  unfold Authenticate. intro H.
  apply bind_Ok_inv in H. destruct H as (ictx & w1 & Hi & H).
  apply bind_Ok_inv in H. destruct H as (response & w2 & _ & H).
  apply bind_Ok_inv in H. destruct H as (ro & w3 & _ & H).
  apply bind_Ok_inv in H. destruct H as (first & w4 & _ & H).
  destruct first; [ | discriminate H ].
  apply bind_Ok_inv in H. destruct H as (response' & w5 & _ & H).
  destruct (handleRemediation_result c (Some ictx) response' w5 ar w' H)
    as (Hctx & [(Hst & Htok & _) | (Hst & Htok & _)]).
  - split; [ | split ].
    + exists ictx, w1. split; [ exact Hi | split; [ exact Hctx | ] ].
      exact (Interact_Ok_verifier c w ictx w1 Hi).
    + rewrite Hst. split; auto.
    + rewrite Hst. discriminate.
  - split; [ | split ].
    + exists ictx, w1. split; [ exact Hi | split; [ exact Hctx | ] ].
      exact (Interact_Ok_verifier c w ictx w1 Hi).
    + rewrite Hst, Htok. split; [ intro Hn; contradiction | discriminate ].
    + rewrite Hst. discriminate.
Qed.

End Authentication.

(** ** Starting a password reset and submitting a password *)

Section PasswordReset.

Variable env : Env.

Lemma on_new_object_Ok (A : Type) (r0 : ResetPasswordResponse) (m : M RState A)
      (w : World) (r : ResetPasswordResponse) (w' : World) :
  on_new_object r0 m w = (Ok r, w') ->
  exists a s', m {| obj := r0; world := w |} = (Ok a, s') /\ r = obj s' /\ w' = world s'.
Proof.
  unfold on_new_object.
  destruct (m {| obj := r0; world := w |}) as [[a | e |] s'] eqn:Hm;
    intro H; inversion H.
  exists a, s'. auto.
Qed.

(** X16. When the document that answers the identifier has no
    [CurrentAuthenticatorEnrollment], [InitPasswordReset] returns an error
    after the three exchanges made so far and creates no response object;
    the error carries the document's messages when it has any and is the
    plain text otherwise, so a document without [Messages] does not make it
    panic. *)
Theorem InitPasswordReset_without_enrollment
        (c : Client) (ir : IdentifyRequest) (w : World)
        (ictx : Context) (w1 : World) (resp : Response) (w2 : World)
        (ro : RemediationOption) (resp' : Response) (w3 : World) :
  Interact env c w = (Ok ictx, w1) ->
  Introspect env c (Some ictx) w1 = (Ok resp, w2) ->
  remediationOption resp "identify" = inr ro ->
  Proceed env ro (json_Marshal env ir) w2 = (Ok resp', w3) ->
  CurrentAuthenticatorEnrollment resp' = None ->
  InitPasswordReset env c ir w =
    (Err (match Messages resp' with
          | Some m => ErrorfMessages enrollment_missing_v (Values m)
          | None => Errorf enrollment_missing
          end), w3).
Proof.
  intros Hi Hintro Hro Hp Hen. unfold InitPasswordReset.
  rewrite (bind_Ok _ _ _ _ _ _ _ _ Hi).
  rewrite (bind_Ok _ _ _ _ _ _ _ _ Hintro).
  rewrite Hro. cbv [of_result]. rewrite (bind_Ok _ _ _ _ _ _ _ _ (eq_refl : ret ro w2 = (Ok ro, w2))).
  rewrite (bind_Ok _ _ _ _ _ _ _ _ Hp).
  unfold require_enrollment. rewrite Hen.
  destruct (Messages resp'); reflexivity.
Qed.

(** X17. A response object returned by [InitPasswordReset] holds the
    session context that [Interact] created for it, a non-empty list of
    steps without [EmailConfirmation], a cached question whenever the
    [AnswerSecurityQuestion] step is listed, and a token exactly when it is
    authenticated. *)
Theorem InitPasswordReset_result
        (c : Client) (ir : IdentifyRequest) (w : World)
        (r : ResetPasswordResponse) (w' : World) :
  InitPasswordReset env c ir w = (Ok r, w') ->
  (exists ictx w1, Interact env c w = (Ok ictx, w1) /\ idxContext r = Some ictx)
  /\ AvailableSteps r <> []
  /\ HasStep r ResetPasswordStepEmailConfirmation = false
  /\ question_invariant r
  /\ (IsAuthenticated r = true <-> token r <> None).
Proof.
  unfold InitPasswordReset. intro H.
  apply bind_Ok_inv in H. destruct H as (ictx & w1 & Hi & H).
  apply bind_Ok_inv in H. destruct H as (resp & w2 & _ & H).
  apply bind_Ok_inv in H. destruct H as (ro & w3 & _ & H).
  apply bind_Ok_inv in H. destruct H as (resp' & w4 & _ & H).
  apply bind_Ok_inv in H. destruct H as (en & w5 & _ & H).
  apply bind_Ok_inv in H. destruct H as (resp'' & w6 & _ & H).
  apply on_new_object_Ok in H. destruct H as ([] & s' & Hsetup & -> & _).
  pose proof (setupNextSteps_Ok_invariant env resp'' _ s' Hsetup) as Hinv.
  destruct (setupNextSteps_Ok_cases env resp'' _ s' Hsetup)
    as [(Hs & t & w7 & ->) | (Hs & Hne & ->)].
  - split; [ exists ictx, w1; split; [ exact Hi | reflexivity ] | ].
    split; [ discriminate | ]. split; [ reflexivity | ].
    split; [ exact Hinv | ].
    cbn. split; [ discriminate | reflexivity ].
  - unfold AvailableSteps, IsAuthenticated, HasStep.
    cbn [set_availableSteps obj availableSteps idxContext token] in *.
    destruct (next_steps_never resp'') as [Hc Hsucc]. rewrite Hc, Hsucc.
    assert (Hkeep : forall s, idxContext (obj (cache_question resp'' s)) = idxContext (obj s)
                              /\ token (obj (cache_question resp'' s)) = token (obj s)).
    { intro s. unfold cache_question. destruct (question_of resp''); split; reflexivity. }
    destruct (Hkeep {| obj := {| idxContext := Some ictx; token := None;
                                 availableSteps := []; sq := None |};
                       world := w6 |}) as [Hctx Htok].
    rewrite Hctx, Htok. cbn [obj idxContext token].
    split; [ exists ictx, w1; split; [ exact Hi | reflexivity ] | ].
    split; [ exact Hne | ]. split; [ reflexivity | ].
    split; [ exact Hinv | ].
    split; [ discriminate | intro Hn; contradiction ].
Qed.

(** X18. [createCodeVerifier] and [createState] exchange nothing. When the
    random source fails they return its error wrapped and consume nothing;
    otherwise they consume exactly 86 resp. 16 bytes of it and return their
    unpadded URL-safe base64 encoding, 115 resp. 22 characters long. *)
Theorem createCodeVerifier_and_createState (w : World) :
  match crand_err env (rand_pos w) with
  | Some e =>
      createCodeVerifier env w = (Err (ErrorfWrap "error creating code_verifier: %w" e), w)
      /\ createState env w = (Err (ErrorfWrap "error creating state: %w" e), w)
  | None =>
      (exists v,
          createCodeVerifier env w =
            (Ok v, {| calls := calls w; rand_pos := rand_pos w + 86 |})
          /\ v = Base64.EncodeToString (map (entropy env) (seq (rand_pos w) 86))
          /\ String.length v = 115
          /\ Base64.all_chars Base64.url_safe v = true)
      /\ (exists v,
             createState env w =
               (Ok v, {| calls := calls w; rand_pos := rand_pos w + 16 |})
             /\ v = Base64.EncodeToString (map (entropy env) (seq (rand_pos w) 16))
             /\ String.length v = 22
             /\ Base64.all_chars Base64.url_safe v = true)
  end.
Proof.
  unfold createCodeVerifier, createState. cbv [bind wrap_err crand_Read ret].
  destruct (crand_err env (rand_pos w)) as [e |].
  - split; reflexivity.
  - split; eexists; (split; [ reflexivity | split; [ reflexivity | split ] ]);
      try apply Base64Facts.EncodeToString_alphabet;
      rewrite Base64Facts.EncodeToString_length, length_map, length_seq; reflexivity.
Qed.

(** X19. Let [SetNewPassword] be called with its step available and let
    its introspection, made through the package-level client, return a
    document. When the document has no "reset-authenticator" option the call
    returns that error, the object is untouched and the password is not
    sent; otherwise the next exchange submits the password with surrounding
    white space trimmed to that option, and at most one more exchange (the
    token exchange) follows. *)
Theorem SetNewPassword_submission
        (password : string) (st : RState) (resp : Response) (w1 : World) :
  HasStep (obj st) ResetPasswordStepNewPassword = true ->
  Introspect env (idx env) (idxContext (obj st)) (world st) = (Ok resp, w1) ->
  let run := SetNewPassword env password st in
  match remediationOption resp "reset-authenticator" with
  | inl e => run = (Err e, {| obj := obj st; world := w1 |})
  | inr ro =>
      exists rest,
        calls (world (snd run)) =
          (calls w1
           ++ [CallProceed ro (passcode_body (strings_TrimSpace env password))]
           ++ rest)%list
        /\ length rest <= 1
  end.
Proof.
  intros Hstep Hintro run. subst run. unfold SetNewPassword.
  rewrite (bind_Ok _ _ _ _ _ _ _ _ (require_step_present _ _ Hstep)).
  assert (Hi : lift (Introspect env (idx env) (idxContext (obj st))) st
               = (Ok resp, {| obj := obj st; world := w1 |})).
  { unfold lift. rewrite Hintro. reflexivity. }
  rewrite (bind_Ok _ _ _ _ _ _ _ _ (eq_refl : gets obj st = (Ok (obj st), st))).
  rewrite (bind_Ok _ _ _ _ _ _ _ _ Hi).
  destruct (remediationOption resp "reset-authenticator") as [e | ro].
  - reflexivity.
  - cbv [of_result]. unfold bind at 1. cbv [ret].
    set (submit := CallProceed ro (passcode_body (strings_TrimSpace env password))).
    set (s1 := {| obj := obj st; world := w1 |}).
    cbv [bind lift Proceed exchange]. fold submit.
    cbn [world s1 add_call calls rand_pos].
    destruct (decode pick_response _ _) as [[resp' | e |] w2] eqn:Hdec.
    + assert (Hw2 : calls w2 = (calls w1 ++ [submit])%list).
      { revert Hdec. unfold decode.
        destruct (Do env _ submit); cbn [pick_response]; cbv [fail ret];
          intro H; inversion H; reflexivity. }
      destruct (sends_setupNextSteps env resp' {| obj := obj s1; world := w2 |})
        as (rest & Hrest & Hlen).
      exists rest. split; [ | exact Hlen ].
      rewrite Hrest. cbn [world]. rewrite Hw2, <- !app_assoc. reflexivity.
    + exists []. split; [ | cbn; lia ].
      revert Hdec. unfold decode.
      destruct (Do env _ submit); cbn [pick_response]; cbv [fail ret];
        intro H; inversion H; cbn [snd world calls add_call];
        reflexivity.
    + exfalso. revert Hdec. unfold decode.
      destruct (Do env _ submit); cbn [pick_response]; cbv [fail ret];
        discriminate.
Qed.

End PasswordReset.

(** ** The steps after a successful transition *)

Section StepsAfterTransition.

Variable env : Env.

Lemma setupNextSteps_Ok_steps (resp : Response) :
  returns_with
    (fun s => availableSteps (obj s) <> []
              /\ NoDup (availableSteps (obj s))
              /\ has_step (availableSteps (obj s)) ResetPasswordStepEmailConfirmation = false)
    (setupNextSteps env resp).
Proof.
  intros s [] s' H.
  destruct (setupNextSteps_Ok_cases env resp s s' H)
    as [(_ & t & w' & ->) | (_ & Hne & ->)];
    cbn [set_availableSteps obj availableSteps].
  - split; [ discriminate | ]. split; [ | reflexivity ].
    constructor; [ intros [] | constructor ].
  - split; [ exact Hne | ]. split; [ apply next_steps_NoDup | ].
    apply next_steps_never.
Qed.

Lemma with_defer_returns (A : Type) (P : RState -> Prop) (cleanup : RState -> RState)
      (m : M RState A) :
  (forall s, P s -> P (cleanup s)) ->
  returns_with P m -> returns_with P (with_defer cleanup m).
Proof.
  intros Hc Hm s a s' H. unfold with_defer in H.
  destruct (m s) as [o s1] eqn:Hms. inversion H; subst.
  apply Hc. exact (Hm s a s1 Hms).
Qed.

(** X20. After a transition that returns normally the list of available
    steps is not empty and has no duplicates, and it holds
    [EmailConfirmation] exactly when the transition was [VerifyEmail], in
    which case [EmailConfirmation] is its last element. *)
Theorem steps_after_successful_transition (t : Transition) (st st' : RState) :
  run_transition env t st = (Ok tt, st') ->
  AvailableSteps (obj st') <> []
  /\ NoDup (AvailableSteps (obj st'))
  /\ (HasStep (obj st') ResetPasswordStepEmailConfirmation = true <-> t = TVerifyEmail)
  /\ (t = TVerifyEmail ->
      exists steps,
        AvailableSteps (obj st') = (steps ++ [ResetPasswordStepEmailConfirmation])%list).
Proof.
  intro H. unfold AvailableSteps, HasStep.
  destruct t; cbn [run_transition] in H.
  - unfold VerifyEmail in H.
    apply bind_Ok_inv in H. destruct H as (_ & s1 & _ & H).
    apply bind_Ok_inv in H. destruct H as (r & s2 & _ & H).
    apply bind_Ok_inv in H. destruct H as (resp & s3 & _ & H).
    apply bind_Ok_inv in H. destruct H as (en & s4 & _ & H).
    apply bind_Ok_inv in H. destruct H as (resp' & s5 & _ & H).
    apply bind_Ok_inv in H. destruct H as ([ro authID] & s6 & _ & H).
    apply bind_Ok_inv in H. destruct H as (resp'' & s7 & _ & H).
    apply bind_Ok_inv in H. destruct H as ([] & s8 & Hsetup & H).
    cbv [bind gets modify ret] in H. inversion H; subst st'.
    destruct (setupNextSteps_Ok_steps resp'' s7 tt s8 Hsetup) as (Hne & Hnd & Hc).
    cbn [set_availableSteps obj availableSteps].
    split; [ intro Hnil; apply app_eq_nil in Hnil; destruct Hnil; discriminate | ].
    split.
    { apply NoDup_app;
        [ exact Hnd | constructor; [ intros [] | constructor ] | ].
      intros x Hx [<- | []]. apply has_step_In in Hx. congruence. }
    split; [ split; [ reflexivity | intros _; apply has_step_last ] | ].
    intros _. eexists; reflexivity.
  - assert (Hp : returns_with
                   (fun s => availableSteps (obj s) <> []
                             /\ NoDup (availableSteps (obj s))
                             /\ has_step (availableSteps (obj s))
                                         ResetPasswordStepEmailConfirmation = false)
                   (ConfirmEmail env code)).
    { unfold ConfirmEmail, confirmWithCode.
      repeat first [ apply setupNextSteps_Ok_steps | apply returns_with_bind; intro ]. }
    destruct (Hp st tt st' H) as (Hne & Hnd & Hc).
    rewrite Hc. repeat split; try assumption; try discriminate.
  - assert (Hp : returns_with
                   (fun s => availableSteps (obj s) <> []
                             /\ NoDup (availableSteps (obj s))
                             /\ has_step (availableSteps (obj s))
                                         ResetPasswordStepEmailConfirmation = false)
                   (AnswerSecurityQuestion env answer)).
    { unfold AnswerSecurityQuestion.
      do 5 (apply returns_with_bind; intro).
      match goal with
      | |- context [sq ?r] =>
          destruct (sq r); [ | intros s0 x s0' Hpanic; discriminate Hpanic ]
      end.
      apply returns_with_bind; intro.
      apply with_defer_returns; [ intros s0 Hs0; exact Hs0 | ].
      apply setupNextSteps_Ok_steps. }
    destruct (Hp st tt st' H) as (Hne & Hnd & Hc).
    rewrite Hc. repeat split; try assumption; try discriminate.
  - assert (Hp : returns_with
                   (fun s => availableSteps (obj s) <> []
                             /\ NoDup (availableSteps (obj s))
                             /\ has_step (availableSteps (obj s))
                                         ResetPasswordStepEmailConfirmation = false)
                   (SetNewPassword env password)).
    { unfold SetNewPassword.
      repeat first [ apply setupNextSteps_Ok_steps | apply returns_with_bind; intro ]. }
    destruct (Hp st tt st' H) as (Hne & Hnd & Hc).
    rewrite Hc. repeat split; try assumption; try discriminate.
  - assert (Hp : returns_with
                   (fun s => availableSteps (obj s) <> []
                             /\ NoDup (availableSteps (obj s))
                             /\ has_step (availableSteps (obj s))
                                         ResetPasswordStepEmailConfirmation = false)
                   (Cancel env)).
    { unfold Cancel.
      repeat first [ apply setupNextSteps_Ok_steps | apply returns_with_bind; intro ]. }
    destruct (Hp st tt st' H) as (Hne & Hnd & Hc).
    rewrite Hc. repeat split; try assumption; try discriminate.
Qed.

End StepsAfterTransition.

(* ===================================================================== *)
(** * The further properties on concrete runs *)

Section MoreRuns.

Import Scenario.

(** A failed token exchange leaves the object as it was; a dead end
    exchanges nothing. *)
Lemma failed_recomputation_run :
  let env := env_of [DoFailed (LibError "timeout")] true in
  let st := start [ResetPasswordStepNewPassword] (Some pet_question) in
  obj (snd (setupNextSteps env success_doc st)) = obj st
  /\ world (snd (setupNextSteps env empty_doc st)) = world st.
Proof.
  cbv zeta. split.
  - exact (proj1 (setupNextSteps_failure_leaves_object
                    (env_of [DoFailed (LibError "timeout")] true) success_doc
                    (start [ResetPasswordStepNewPassword] (Some pet_question)))
                 eq_refl).
  - exact (proj2 (setupNextSteps_failure_leaves_object
                    (env_of [DoFailed (LibError "timeout")] true) empty_doc
                    (start [ResetPasswordStepNewPassword] (Some pet_question)))
                 eq_refl).
Defined.

(** A cancellable passcode challenge offers [Cancel] alone. *)
Lemma steps_of_probes_run :
  let env := env_of [] true in
  let st := start [ResetPasswordStepEmailVerification] None in
  availableSteps (obj (snd (setupNextSteps env email_challenge_doc st)))
  = [ResetPasswordStepCancel].
Proof.
  cbv zeta.
  exact (proj1 (setupNextSteps_steps_of_probes
                  (env_of [] true) email_challenge_doc
                  (start [ResetPasswordStepEmailVerification] None)
                  (snd (setupNextSteps (env_of [] true) email_challenge_doc
                          (start [ResetPasswordStepEmailVerification] None)))
                  eq_refl eq_refl)).
Defined.

Lemma offered_question_is_cached_run :
  let env := env_of [] true in
  let st' := snd (setupNextSteps env question_doc (start [] None)) in
  HasStep (obj st') ResetPasswordStepAnswerSecurityQuestion = true
  /\ sq (obj st') = Some pet_question.
Proof.
  cbv zeta.
  exact (proj1 (proj2 (setupNextSteps_caches_the_offered_question
                         (env_of [] true) question_doc (start [] None)
                         (snd (setupNextSteps (env_of [] true) question_doc
                                 (start [] None)))
                         eq_refl)
                      eq_refl pet_question)
               eq_refl).
Defined.

Lemma authenticated_after_marker_run :
  let env := env_of [GotToken "tok"] true in
  let st' := snd (setupNextSteps env success_doc (start [ResetPasswordStepNewPassword] None)) in
  availableSteps (obj st') = [ResetPasswordStepSuccess] /\ token (obj st') <> None.
Proof.
  cbv zeta.
  exact (proj2 (proj2 (proj2 (setupNextSteps_success_iff_marker
                                (env_of [GotToken "tok"] true) success_doc
                                (start [ResetPasswordStepNewPassword] None)
                                (snd (setupNextSteps (env_of [GotToken "tok"] true)
                                        success_doc
                                        (start [ResetPasswordStepNewPassword] None)))
                                eq_refl)))
               eq_refl).
Defined.

(** [SetNewPassword] whose submission is refused keeps steps and question. *)
Lemma failed_SetNewPassword_run :
  let env := env_of [GotResponse reset_doc; StatusNotOK []] true in
  let st := start [ResetPasswordStepNewPassword] (Some pet_question) in
  obj (snd (run_transition env (TSetNewPassword "hunter2") st)) = obj st.
Proof.
  cbv zeta.
  refine (proj1 (failed_transition_leaves_object
                   (env_of [GotResponse reset_doc; StatusNotOK []] true)
                   (TSetNewPassword "hunter2")
                   (start [ResetPasswordStepNewPassword] (Some pet_question))
                   _ eq_refl)).
  discriminate.
Defined.

(** [Cancel] answered by a question: the question is cached with its step. *)
Lemma Cancel_keeps_question_promise_run :
  let env := env_of [GotResponse email_challenge_doc; GotResponse question_doc] true in
  let st := start [ResetPasswordStepCancel] None in
  HasStep (obj (snd (run_transition env TCancel st)))
          ResetPasswordStepAnswerSecurityQuestion = true
  /\ sq (obj (snd (run_transition env TCancel st))) <> None.
Proof.
  cbv zeta. split; [ reflexivity | ].
  refine (transition_preserves_question_invariant
            (env_of [GotResponse email_challenge_doc; GotResponse question_doc] true)
            TCancel (start [ResetPasswordStepCancel] None) _ _ eq_refl).
  - discriminate.
  - intro H. discriminate H.
Defined.

Lemma Introspect_bootstrap_run :
  let env := env_of [GotHandle "h"; GotResponse identify_doc] true in
  fst (Introspect env client None world0) = Ok identify_doc.
Proof.
  cbv zeta.
  erewrite (proj1 (Introspect_without_context_interacts_first
                     (env_of [GotHandle "h"; GotResponse identify_doc] true)
                     client world0 issuer_url eq_refl));
    [ | cbv; reflexivity ].
  reflexivity.
Defined.

Lemma handleRemediation_success_run :
  let env := env_of [GotToken "tok"] true in
  fst (handleRemediation env client (Some session) success_doc world0)
  = Ok (Some {| ar_idxContext := Some session; ar_token := Some "tok";
                authenticationStatus := AuthStatusSuccess |}).
Proof.
  cbv zeta.
  exact (proj1 (proj2 (handleRemediation_success_marker
                         (env_of [GotToken "tok"] true) client session success_doc
                         success_option world0 eq_refl))
               "tok" eq_refl).
Defined.

Lemma Authenticate_success_run :
  let env := env_of [GotHandle "h"; GotResponse identify_doc; GotResponse passcode_doc;
                     GotResponse success_doc; GotToken "tok"] true in
  match fst (Authenticate env client
               {| Username := "user@example.com"; Password := "pw" |} world0) with
  | Ok (Some ar) =>
      ar_token ar <> None <-> authenticationStatus ar = AuthStatusSuccess
  | _ => False
  end.
Proof.
  cbv zeta.
  eassert (H : Authenticate
                 (env_of [GotHandle "h"; GotResponse identify_doc;
                          GotResponse passcode_doc; GotResponse success_doc;
                          GotToken "tok"] true)
                 client {| Username := "user@example.com"; Password := "pw" |} world0
               = (Ok (Some _), _)) by (cbv; reflexivity).
  rewrite H. cbn [fst].
  exact (proj1 (proj2 (Authenticate_response_shape _ _ _ _ _ _ H))).
Defined.

Lemma InitPasswordReset_without_enrollment_run :
  let env := env_of [GotHandle "h"; GotResponse identify_doc; GotResponse email_doc] true in
  fst (InitPasswordReset env client
         {| Identifier := "user@example.com"; RememberMe := false |} world0)
  = Err (Errorf enrollment_missing).
Proof.
  cbv zeta.
  erewrite (InitPasswordReset_without_enrollment
              (env_of [GotHandle "h"; GotResponse identify_doc; GotResponse email_doc] true)
              client {| Identifier := "user@example.com"; RememberMe := false |} world0);
    [ | cbv; reflexivity | cbv; reflexivity | reflexivity | cbv; reflexivity
      | reflexivity ].
  reflexivity.
Defined.

Lemma InitPasswordReset_result_run :
  let env := env_of [GotHandle "h"; GotResponse identify_doc; GotResponse enrollment_doc;
                     GotResponse question_doc] true in
  match fst (InitPasswordReset env client
               {| Identifier := "user@example.com"; RememberMe := false |} world0) with
  | Ok r => AvailableSteps r <> [] /\ question_invariant r
  | _ => False
  end.
Proof.
  cbv zeta.
  eassert (H : InitPasswordReset
                 (env_of [GotHandle "h"; GotResponse identify_doc;
                          GotResponse enrollment_doc; GotResponse question_doc] true)
                 client {| Identifier := "user@example.com"; RememberMe := false |} world0
               = (Ok _, _)) by (cbv; reflexivity).
  rewrite H. cbn [fst].
  destruct (InitPasswordReset_result _ _ _ _ _ _ H) as (_ & Hne & _ & Hinv & _).
  split; [ exact Hne | exact Hinv ].
Defined.

Lemma SetNewPassword_submission_run :
  let env := env_of [GotResponse reset_doc; GotResponse success_doc; GotToken "tok"] true in
  let st := start [ResetPasswordStepNewPassword] None in
  let introspect :=
    CallIntrospect "https://example.okta.com/idp/idx/introspect" (Some {| handle := "h0" |}) in
  exists rest,
    calls (world (snd (SetNewPassword env "hunter2" st))) =
      ([introspect]
       ++ [CallProceed reset_option (passcode_body "hunter2")] ++ rest)%list
    /\ length rest <= 1.
Proof.
  cbv zeta.
  exact (SetNewPassword_submission
           (env_of [GotResponse reset_doc; GotResponse success_doc; GotToken "tok"] true)
           "hunter2" (start [ResetPasswordStepNewPassword] None) reset_doc
           {| calls := [CallIntrospect "https://example.okta.com/idp/idx/introspect"
                                       (Some {| handle := "h0" |})];
              rand_pos := 0 |}
           eq_refl eq_refl).
Defined.

Lemma steps_after_VerifyEmail_run :
  let env := env_of [GotResponse enrollment_doc; GotResponse email_doc;
                     GotResponse email_challenge_doc] true in
  let st' := snd (run_transition env TVerifyEmail
                                 (start [ResetPasswordStepEmailVerification] None)) in
  AvailableSteps (obj st') <> [] /\ NoDup (AvailableSteps (obj st')).
Proof.
  cbv zeta.
  destruct (steps_after_successful_transition
              (env_of [GotResponse enrollment_doc; GotResponse email_doc;
                       GotResponse email_challenge_doc] true)
              TVerifyEmail (start [ResetPasswordStepEmailVerification] None)
              (snd (run_transition
                      (env_of [GotResponse enrollment_doc; GotResponse email_doc;
                               GotResponse email_challenge_doc] true)
                      TVerifyEmail (start [ResetPasswordStepEmailVerification] None)))
              eq_refl)
    as (Hne & Hnd & _).
  split; [ exact Hne | exact Hnd ].
Defined.

End MoreRuns.
